(** * omit-needless-words.py: a shallow embedding and its verified properties

    The script [utils/omit-needless-words.py] drives [swift-ide-test] over the
    frameworks of one or more SDKs.  This development embeds it function by
    function:

    - strings are Rocq [string]s (Python 2 byte strings), argument vectors are
      [list string];
    - the two module-level tables are a [gmap] and a [gset];
    - the two regular expressions are written in a small pattern language whose
      matcher backtracks the way Python's [re] does (greedy, longest first);
    - every interaction with the outside (spawning a process, listing a
      directory, printing, writing a file) is an [event]; a function of the
      script is a computation that produces the events it issues, in order,
      together with its value or the exception it raises;
    - what the outside answers is read from a [world]: the result of every
      command line, the content of every directory, and the directories
      there are besides those a job makes.

    Spawning a process is taken to succeed, and [mkdir -p] to make the
    directory it is given, unless the path begins with [-] and is read as
    options.  The exceptions that the script itself can provoke are
    modelled: a missing dictionary key, a tuple of the wrong size, a directory
    that cannot be listed, a pool of no process, an output file whose
    directory is neither made by the job nor there already.  The import
    pattern is embedded for module names whose only special character is the
    dot (see [Re.plain]); statements about submodules are made for such
    names. *)

From Stdlib Require Import ZArith Ascii DecimalString.
From stdpp Require Import gmap strings list sorting.

Local Open Scope Z_scope.

(** ** Python string primitives *)

(** The characters that [str.rstrip()] strips and that [\s] matches:
    space, TAB, LF, VT, FF, CR. *)
Definition is_whitespace (c : ascii) : bool :=
  match c with
  | " " | "009" | "010" | "011" | "012" | "013" => true
  | _ => false
  end%char.

Definition is_empty (s : string) : bool :=
  match s with
  | "" => true
  | String _ _ => false
  end.

(** [s.rstrip()] *)
Fixpoint rstrip (s : string) : string :=
  match s with
  | "" => ""
  | String c s' =>
      let r := rstrip s' in
      if is_empty r && is_whitespace c then "" else String c r
  end.

(** [s.splitlines()] on a byte string: lines end at LF, CR or CR LF, the line
    ends are dropped, and a final line break opens no further line.
    [cr] records that the previous character was a CR that ended a line;
    [cur] is the current line, reversed. *)
Fixpoint splitlines_go (cr : bool) (cur : string) (s : string) : list string :=
  match s with
  | "" => if is_empty cur then [] else [String.rev cur]
  | String c s' =>
      if Ascii.eqb c "010" then
        if cr then splitlines_go false "" s'
        else String.rev cur :: splitlines_go false "" s'
      else if Ascii.eqb c "013" then
        String.rev cur :: splitlines_go true "" s'
      else splitlines_go false (String c cur) s'
  end.

Definition splitlines (s : string) : list string := splitlines_go false "" s.

(** [s.find(sub)]: the lowest index at which [sub] occurs in [s], or [-1]. *)
Fixpoint find_from (sub s : string) (i : Z) : Z :=
  if String.prefix sub s then i
  else match s with
       | "" => -1
       | String _ s' => find_from sub s' (i + 1)
       end.

Definition find (s sub : string) : Z := find_from sub s 0.

(** The text before the last [/] of a path: the directory that holds the
    file.  Empty when the path has no [/]. *)
Fixpoint has_slash (s : string) : bool :=
  match s with
  | "" => false
  | String c s' => Ascii.eqb c "/" || has_slash s'
  end.

Fixpoint dirname (p : string) : string :=
  match p with
  | "" => ""
  | String c p' => if has_slash p' then String c (dirname p') else ""
  end.

(** ['%d' % n] *)
Definition format_d (n : Z) : string := NilZero.string_of_int (Z.to_int n).

(** Truth value of an optional command-line string: [None] and [''] are
    false. *)
Definition truthy (o : option string) : bool :=
  match o with
  | Some s => negb (is_empty s)
  | None => false
  end.

(** ** The fragment of [re] the script uses *)

Module Re.

(** Character classes: [.], [\s], [[A-Za-z_0-9.]] and a literal character. *)
Inductive cls :=
| Any
| Space
| Word
| Lit (c : ascii).

Definition between (lo hi : N) (c : ascii) : bool :=
  let n := N_of_ascii c in ((lo <=? n) && (n <=? hi))%N.

(** [[A-Za-z_0-9.]] *)
Definition word_char (c : ascii) : bool :=
  between 65 90 c || between 97 122 c || Ascii.eqb c "_"
  || between 48 57 c || Ascii.eqb c ".".

Definition mem (k : cls) (c : ascii) : bool :=
  match k with
  | Any => negb (Ascii.eqb c "010")
  | Space => is_whitespace c
  | Word => word_char c
  | Lit c' => Ascii.eqb c c'
  end.

(** Pattern items: one character of a class, [k*], [k+], and the capturing
    group [(k+)].  A pattern is a sequence of items with at most one group. *)
Inductive atom :=
| One (k : cls)
| Star (k : cls)
| Plus (k : cls)
| Group (k : cls).

Definition pattern := list atom.

(** The items of a literal text. *)
Fixpoint lits (s : string) : pattern :=
  match s with
  | "" => []
  | String c s' => One (Lit c) :: lits s'
  end.

(** Greedy repetition: take one more character of the class when there is one
    and the rest can then still match, otherwise stop here. *)
Fixpoint greedy (k : cls) (cont : string → option string) (s : string)
  : option string :=
  match s with
  | String c s' =>
      if mem k c then
        match greedy k cont s' with
        | Some g => Some g
        | None => cont s
        end
      else cont s
  | "" => cont s
  end.

(** The same, returning the characters taken (the text of the group). *)
Fixpoint greedy_cap (k : cls) (cont : string → option string) (s : string)
  : option string :=
  match s with
  | String c s' =>
      if mem k c then
        match greedy_cap k cont s' with
        | Some g => Some (String c g)
        | None => match cont s with Some _ => Some "" | None => None end
        end
      else match cont s with Some _ => Some "" | None => None end
  | "" => match cont s with Some _ => Some "" | None => None end
  end.

(** [exec p s] is [p.match(s)]: the pattern is tried at the start of [s] only
    and need not reach its end.  The result is the text of group 1. *)
Fixpoint exec (p : pattern) (s : string) : option string :=
  match p with
  | [] => Some ""
  | One k :: p' =>
      match s with
      | String c s' => if mem k c then exec p' s' else None
      | "" => None
      end
  | Star k :: p' => greedy k (exec p') s
  | Plus k :: p' =>
      match s with
      | String c s' => if mem k c then greedy k (exec p') s' else None
      | "" => None
      end
  | Group k :: p' =>
      match s with
      | String c s' =>
          if mem k c then String c <$> greedy_cap k (exec p') s' else None
      | "" => None
      end
  end.

(** Characters with a special meaning in a pattern. *)
Definition special (c : ascii) : bool :=
  match c with
  | "." | "^" | "$" | "*" | "+" | "?" | "{" | "}" | "[" | "]" | "\" | "|"
  | "(" | ")" => true
  | _ => false
  end%char.

(** A text interpolated into a pattern without escaping: [.] is the wildcard,
    an ordinary character stands for itself.  The embedding is faithful for
    texts whose only special character is [.] (see [plain]). *)
Fixpoint interpolated (s : string) : pattern :=
  match s with
  | "" => []
  | String c s' =>
      (if Ascii.eqb c "." then One Any else One (Lit c)) :: interpolated s'
  end.

Fixpoint plain (s : string) : bool :=
  match s with
  | "" => true
  | String c s' => (Ascii.eqb c "." || negb (special c)) && plain s'
  end.

End Re.

(** ** Module-level tables *)

Definition DEFAULT_TARGET_BASED_ON_SDK : gmap string string :=
  list_to_map [
    ("macosx", "x86_64-apple-macosx10.11");
    ("iphoneos", "arm64-apple-ios9.0");
    ("iphonesimulator", "x86_64-apple-ios9.0");
    ("watchos", "armv7k-apple-watchos2.0");
    ("watchos.simulator", "i386-apple-watchos2.0");
    ("appletvos", "arm64-apple-tvos9");
    ("appletvos.simulator", "x86_64-apple-tvos9")
  ].

Definition SKIPPED_FRAMEWORKS : gset string :=
  list_to_set [
    "CalendarStore"; "CoreMIDIServer"; "DrawSprocket"; "DVComponentGlue";
    "InstallerPlugins"; "InstantMessage"; "JavaFrameEmbedding"; "JavaVM";
    "Kerberos"; "Kernel"; "LDAP"; "Message"; "PCSC"; "QTKit"; "Ruby";
    "SyncServices"; "System"; "Tk"; "VideoDecodeAcceleration"; "vecLib"
  ].

(** [sorted(list(xs))] for a set of strings. *)
Definition sorted (xs : gset string) : list string :=
  merge_sort String.le (elements xs).

(** ** Effects *)

(** What the script asks of the outside, in the order it asks. *)
Inductive event :=
| Popen (args : list string)
    (* [run_command]: spawn with both pipes captured, wait *)
| Call (args : list string)
    (* [subprocess.call(args)] *)
| CallToFile (args : list string) (filename : string)
    (* [open(filename, 'w')], then [subprocess.call(args, stdout=file)] *)
| ListDir (path : string)
    (* [os.listdir(path)] *)
| Print (line : string).

Inductive exn :=
| KeyError (key : string)
| ValueError
| OSError (path : string)
| IOError (filename : string).

Inductive outcome (A : Type) :=
| Ok (a : A)
| Raise (e : exn).
Arguments Ok {A} a.
Arguments Raise {A} e.

(** A computation: the events issued, then the value or the exception. *)
Definition M (A : Type) : Type := list event * outcome A.

Definition ret {A} (a : A) : M A := ([], Ok a).

Definition bind {A B} (m : M A) (f : A → M B) : M B :=
  match m.2 with
  | Ok a => (m.1 ++ (f a).1, (f a).2)
  | Raise e => (m.1, Raise e)
  end.

Definition raise {A} (e : exn) : M A := ([], Raise e).

Definition emit (ev : event) : M unit := ([ev], Ok ()).

Notation "x <- m ;; k" := (bind m (λ x, k))
  (at level 100, m at next level, right associativity, only parsing).
Notation "m ;;; k" := (bind m (λ _, k))
  (at level 100, right associativity, only parsing).

(** [for x in xs: body(x)] *)
Fixpoint for_each {A} (xs : list A) (body : A → M unit) : M unit :=
  match xs with
  | [] => ret ()
  | x :: xs' => body x ;;; for_each xs' body
  end.

(** The answers of the outside. *)
Record world := {
  (* exit code, standard output, standard error of a command line *)
  spawn : list string → Z * string * string;
  (* the entries of a directory, in the order the system lists them;
     [None] when it cannot be listed *)
  entries : string → option (list string);
  (* whether this path names a directory when a job opens a file in it, for
     another reason than that the job has made a directory under this very
     path: it was there before, or the path reaches one through [..] or a
     link *)
  directory_exists : string → bool;
}.

(** What [collect_frameworks] returns: the empty tuple [()] on its two error
    paths, the pair [(sorted names, sdk_path)] otherwise. *)
Inductive frameworks_result :=
| EmptyTuple
| Collected (frameworks : list string) (sdk_path : string).

(** A job: the tuple that [dump_module_api] takes apart. *)
Record job := {
  job_cmd : list string;
  job_extra_dump_args : list string;
  job_output_dir : string;
  job_module : string;
  job_quiet : bool;
}.

(** The parsed command line ([argparse] is not modelled). *)
Record arguments := {
  args_module : option string;
  args_jobs : option Z;
  args_sdk : list string;
  args_target : option string;
  args_swift_ide_test : string;
  args_swift_3 : bool;
  args_output_dir : string;
  args_quiet : bool;
}.

(** ** The script *)

(** [pretty_sdk_name(sdk)] *)
Definition pretty_sdk_name (sdk : string) : string :=
  if find sdk "macosx" =? 0 then "OSX"
  else if find sdk "iphoneos" =? 0 then "iOS"
  else if find sdk "watchos" =? 0 then "watchOS"
  else if find sdk "appletvos" =? 0 then "tvOS"
  else "unknownOS".

(** [re.compile('.*import\s+%s\.([A-Za-z_0-9.]+)' % (module))] *)
Definition import_matcher (module : string) : Re.pattern :=
  [Re.Star Re.Any] ++ Re.lits "import" ++ [Re.Plus Re.Space]
  ++ Re.interpolated module ++ [Re.One (Re.Lit ".")] ++ [Re.Group Re.Word].

(** [re.compile('([A-Za-z_0-9.]+)\.framework')] *)
Definition framework_matcher : Re.pattern :=
  [Re.Group Re.Word] ++ Re.lits ".framework".

(** The loop of [collect_submodules] over the lines of the output. *)
Definition submodules_of (module : string) (lines : list string)
  : gset string :=
  foldl (λ submodules line,
           match Re.exec (import_matcher module) line with
           | Some g => {[g]} ∪ submodules
           | None => submodules
           end) ∅ lines.

(** The loop of [collect_frameworks] over the directory entries. *)
Definition frameworks_of (listing : list string) : gset string :=
  foldl (λ frameworks entry,
           match Re.exec framework_matcher entry with
           | Some framework =>
               if decide (framework ∈ SKIPPED_FRAMEWORKS) then frameworks
               else {[framework]} ∪ frameworks
           | None => frameworks
           end) ∅ listing.

(** [d[key]] *)
Definition subscript (d : gmap string string) (key : string) : M string :=
  match d !! key with
  | Some v => ret v
  | None => raise (KeyError key)
  end.

(** Lines 165-168 of the script: the target of an SDK. *)
Definition sdk_target_of (sdk : string) (target : option string) : M string :=
  if truthy target then ret (default "" target)
  else subscript DEFAULT_TARGET_BASED_ON_SDK sdk.

(** What [mkdir -p path] makes sure of: the directory [path], unless the
    argument begins with [-]; [mkdir] then reads it as options and makes
    nothing. *)
Definition mkdir_p (path : string) : list string :=
  if String.prefix "-" path then [] else [path].

Section Script.

Variable w : world.

(** Whether [open(filename, 'w')] finds the directory that is to hold the
    file: it is one of those the job has made, or it exists already. *)
Definition can_open (made : list string) (filename : string) : bool :=
  bool_decide (dirname filename ∈ made)
  || directory_exists w (dirname filename).

(** [output_command_result_to_file(command_args, filename)].  [made] is the
    part of the state of the file system that the script has set up itself:
    the directories it has made. *)
Definition output_command_result_to_file (made : list string)
  (command_args : list string) (filename : string) : M unit :=
  if can_open made filename then emit (CallToFile command_args filename)
  else raise (IOError filename).

Definition run_command (args : list string) : M (Z * string * string) :=
  emit (Popen args) ;;; ret (spawn w args).

Definition listdir (path : string) : M (list string) :=
  emit (ListDir path) ;;;
  match entries w path with
  | Some l => ret l
  | None => raise (OSError path)
  end.

(** [collect_submodules(common_args, module)].  The empty tuple returned on
    failure is only ever iterated over; it is the empty list here. *)
Definition collect_submodules (common_args : list string) (module : string)
  : M (list string) :=
  let my_args :=
    ["-module-print-submodules"; "-module-to-print=" +:+ module] in
  r <- run_command (common_args ++ my_args) ;;
  let '(exitcode, out, err) := r in
  if negb (exitcode =? 0) then
    emit (Print ("error: submodule collection failed with error "
                 +:+ format_d exitcode)) ;;;
    ret []
  else
    ret (sorted (submodules_of module (splitlines out))).

(** [dump_module_api((cmd, extra_dump_args, output_dir, module, quiet))] *)
Definition dump_module_api (j : job) : M unit :=
  let cmd := job_cmd j in
  let extra_dump_args := job_extra_dump_args j in
  let output_dir := job_output_dir j in
  let module := job_module j in
  let quiet := job_quiet j in
  submodules <- collect_submodules cmd module ;;
  emit (Call ["mkdir"; "-p"; output_dir +:+ "/" +:+ module]) ;;;
  (* the directories there are for the job from now on *)
  let made := mkdir_p (output_dir +:+ "/" +:+ module) in
  let output_file :=
    output_dir +:+ "/" +:+ module +:+ "/" +:+ module +:+ ".swift" in
  (if quiet then ret ()
   else emit (Print ("Writing " +:+ output_file +:+ "..."))) ;;;
  let top_level_cmd :=
    cmd ++ extra_dump_args ++ ["-module-to-print=" +:+ module] in
  output_command_result_to_file made top_level_cmd output_file ;;;
  for_each submodules (λ submodule,
    let output_file :=
      output_dir +:+ "/" +:+ module +:+ "/" +:+ submodule +:+ ".swift" in
    (if quiet then ret ()
     else emit (Print ("Writing " +:+ output_file +:+ "..."))) ;;;
    let full_submodule := module +:+ "." +:+ submodule in
    let submodule_cmd := cmd ++ extra_dump_args in
    let submodule_cmd :=
      submodule_cmd ++ ["-module-to-print=" +:+ full_submodule] in
    output_command_result_to_file made submodule_cmd output_file).

(** [collect_frameworks(sdk)] *)
Definition collect_frameworks (sdk : string) : M frameworks_result :=
  r <- run_command ["xcrun"; "--show-sdk-path"; "-sdk"; sdk] ;;
  let '(exitcode, sdk_path, err) := r in
  if negb (exitcode =? 0) then
    emit (Print ("error: framework collection failed with error "
                 +:+ format_d exitcode)) ;;;
    ret EmptyTuple
  else
    let sdk_path := rstrip sdk_path in
    r <- run_command ["xcrun"; "--show-sdk-version"; "-sdk"; sdk] ;;
    let '(exitcode, sdk_version, err) := r in
    if negb (exitcode =? 0) then
      emit (Print ("error: framework collection failed with error "
                   +:+ format_d exitcode)) ;;;
      ret EmptyTuple
    else
      let sdk_version := rstrip sdk_version in
      emit (Print ("Collecting frameworks from " +:+ pretty_sdk_name sdk
                   +:+ " " +:+ sdk_version +:+ " at " +:+ sdk_path)) ;;;
      let frameworks_dir := sdk_path +:+ "/System/Library/Frameworks" in
      listing <- listdir frameworks_dir ;;
      ret (Collected (sorted (frameworks_of listing)) sdk_path).

(** [create_dump_module_api_args(cmd_common, cmd_extra_args, sdk, module,
    target, source_filename, output_dir, quiet)].  The assignment
    [(frameworks, sdk_root) = collect_frameworks(sdk)] raises [ValueError] on
    the empty tuple. *)
Definition create_dump_module_api_args
  (cmd_common cmd_extra_args : list string) (sdk : string)
  (module target : option string) (source_filename output_dir : string)
  (quiet : bool) : M (list job) :=
  r <- collect_frameworks sdk ;;
  match r with
  | EmptyTuple => raise ValueError
  | Collected frameworks sdk_root =>
      sdk_target <- sdk_target_of sdk target ;;
      let pretty_sdk := pretty_sdk_name sdk in
      let sdk_output_dir := output_dir +:+ "/" +:+ pretty_sdk in
      let cmd := cmd_common ++ ["-sdk"; sdk_root; "-target"; sdk_target] in
      let result m := {|
        job_cmd := cmd; job_extra_dump_args := cmd_extra_args;
        job_output_dir := sdk_output_dir; job_module := m;
        job_quiet := quiet |} in
      if truthy module then ret [result (default "" module)]
      else ret (result <$> frameworks)
  end.

(** The loop of [main] over [args.sdk]:
    [jobs = jobs + create_dump_module_api_args(...)]. *)
Fixpoint construct_jobs
  (cmd_common extra_args : list string) (args : arguments)
  (source_filename : string) (sdks : list string) (jobs : list job)
  : M (list job) :=
  match sdks with
  | [] => ret jobs
  | sdk :: sdks' =>
      more <- create_dump_module_api_args cmd_common extra_args sdk
                (args_module args) (args_target args) source_filename
                (args_output_dir args) (args_quiet args) ;;
      construct_jobs cmd_common extra_args args source_filename sdks'
        (jobs ++ more)
  end.

(** One run of the script.  Either an exception leaves [main] before any job
    is handed to the pool, or the jobs are dispatched: each worker's
    computation is kept apart, since the pool fixes no order between them.
    When a worker raises, [pool.map] raises in [main] and what follows it is
    not run. *)
Inductive run :=
| Aborted (events : list event) (e : exn)
| Dispatched (events : list event) (workers : list (M unit))
    (after : list event).

Definition returned {A} (m : M A) : bool :=
  match m.2 with
  | Ok _ => true
  | Raise _ => false
  end.

Definition source_filename : string := "omit-needless-words.swift".

Definition cmd_common_of (args : arguments) : list string :=
  [args_swift_ide_test args; "-print-module"; "-source-filename";
   source_filename; "-module-print-skip-overlay"; "-skip-unavailable";
   "-skip-print-doc-comments"].

Definition extra_args_of (args : arguments) : list string :=
  let extra_args := ["-skip-imports"] in
  if args_swift_3 args then
    extra_args ++ ["-enable-omit-needless-words";
                   "-enable-infer-default-arguments";
                   "-enable-strip-ns-prefix"]
  else extra_args.

(** [multiprocessing.Pool(processes=n)] refuses [n < 1]. *)
Definition pool_ok (processes : option Z) : bool :=
  match processes with
  | Some n => 1 <=? n
  | None => true
  end.

(** [main()], after [parser.parse_args()]. *)
Definition main (args : arguments) : run :=
  let cmd_common := cmd_common_of args in
  let extra_args := extra_args_of args in
  let before :=
    emit (Call ["touch"; source_filename]) ;;;
    construct_jobs cmd_common extra_args args source_filename
      (args_sdk args) [] in
  match before.2 with
  | Raise e => Aborted before.1 e
  | Ok jobs =>
      if pool_ok (args_jobs args) then
        let workers := dump_module_api <$> jobs in
        Dispatched before.1 workers
          (if forallb returned workers
           then [Call ["rm"; "-f"; source_filename]] else [])
      else Aborted before.1 ValueError
  end.

End Script.

(** ** Trace observations *)

(** The file writes of a trace: command line and file of every redirected
    call, in order. *)
Definition file_writes (t : list event) : list (list string * string) :=
  omap (λ ev, match ev with
              | CallToFile args filename => Some (args, filename)
              | _ => None
              end) t.

(** The paths an event creates, overwrites or removes.  A plain call
    ([touch f], [rm -f f], [mkdir -p d]) acts on its operands, the arguments
    that do not begin with [-]; the directories above [d] that [mkdir -p d]
    makes on its way are not listed.  A captured query and a directory
    listing only read. *)
Definition modified (ev : event) : list string :=
  match ev with
  | CallToFile _ filename => [filename]
  | Call (_ :: operands) =>
      filter (λ a, String.prefix "-" a = false) operands
  | _ => []
  end.

(** The command lines an event spawns with output captured or redirected:
    the queries to [xcrun] and every invocation of [swift-ide-test]. *)
Definition invocation (ev : event) : option (list string) :=
  match ev with
  | Popen args => Some args
  | CallToFile args _ => Some args
  | _ => None
  end.

Definition starts_with (p s : string) : Prop := ∃ rest, s = p +:+ rest.

(** ** Vocabulary of the statements *)

Fixpoint all_chars (P : ascii → bool) (s : string) : bool :=
  match s with
  | "" => true
  | String c s' => P c && all_chars P s'
  end.

(** Any character but [/]. *)
Definition not_slash (c : ascii) : bool := negb (Ascii.eqb c "/").

(** A path component that names an entry of its directory: not empty, not
    [.] or [..], without [/]. *)
Definition proper_component (s : string) : Prop :=
  s ≠ "" ∧ s ≠ "." ∧ s ≠ ".." ∧ all_chars not_slash s = true.

(** [m] is a text the unescaped [module] matches as a pattern: the same
    length, equal character by character except that a [.] of [module]
    stands for any character but LF. *)
Fixpoint instance_of (module m : string) : Prop :=
  match module, m with
  | "", "" => True
  | String c module', String d m' =>
      (if Ascii.eqb c "." then d ≠ "010"%char else d = c)
      ∧ instance_of module' m'
  | _, _ => False
  end.

(** [rest] does not continue a run of characters of [[A-Za-z_0-9.]]. *)
Definition ends_word (rest : string) : Prop :=
  match rest with
  | "" => True
  | String c _ => Re.word_char c = false
  end.

(** A line that imports submodule [sub] of [module]: somewhere in the line,
    [import], white space, the module, a dot, and the name, which runs as far
    as its characters allow. *)
Definition import_line (module line sub : string) : Prop :=
  ∃ pre ws m rest,
    line = pre +:+ "import" +:+ ws +:+ m +:+ "." +:+ sub +:+ rest
    ∧ ws ≠ "" ∧ all_chars is_whitespace ws = true
    ∧ instance_of module m
    ∧ sub ≠ "" ∧ all_chars Re.word_char sub = true
    ∧ ends_word rest.

(** The same with [import] at the very start of the line. *)
Definition anchored_import_line (module line sub : string) : Prop :=
  ∃ ws rest,
    line = "import" +:+ ws +:+ module +:+ "." +:+ sub +:+ rest
    ∧ ws ≠ "" ∧ all_chars is_whitespace ws = true.

(** A directory entry that is a bundle: [<name>.framework] and nothing
    more. *)
Definition bundle_entry (entry name : string) : Prop :=
  entry = name +:+ ".framework".

(** A directory entry of the form [<name>.framework...]. *)
Definition framework_entry (entry name : string) : Prop :=
  name ≠ "" ∧ all_chars Re.word_char name = true
  ∧ starts_with (name +:+ ".framework") entry.

(** Pieces of the traces and results of [collect_frameworks] and
    [create_dump_module_api_args]. *)
Definition sdk_path_query (sdk : string) : list string :=
  ["xcrun"; "--show-sdk-path"; "-sdk"; sdk].

Definition sdk_version_query (sdk : string) : list string :=
  ["xcrun"; "--show-sdk-version"; "-sdk"; sdk].

Definition collection_failed (exitcode : Z) : event :=
  Print ("error: framework collection failed with error "
         +:+ format_d exitcode).

Definition frameworks_dir_of (sdk_path : string) : string :=
  sdk_path +:+ "/System/Library/Frameworks".

Definition collecting (sdk sdk_version sdk_path : string) : event :=
  Print ("Collecting frameworks from " +:+ pretty_sdk_name sdk
         +:+ " " +:+ sdk_version +:+ " at " +:+ sdk_path).

(** The job that [create_dump_module_api_args] appends for module [m]. *)
Definition job_for (cmd_common cmd_extra_args : list string)
  (sdk sdk_root sdk_target output_dir : string) (quiet : bool) (m : string)
  : job := {|
  job_cmd := cmd_common ++ ["-sdk"; sdk_root; "-target"; sdk_target];
  job_extra_dump_args := cmd_extra_args;
  job_output_dir := output_dir +:+ "/" +:+ pretty_sdk_name sdk;
  job_module := m;
  job_quiet := quiet;
|}.

(** Pieces of the trace of [dump_module_api]. *)
Definition submodules_query (cmd : list string) (module : string)
  : list string :=
  cmd ++ ["-module-print-submodules"; "-module-to-print=" +:+ module].

Definition submodules_failed (exitcode : Z) : event :=
  Print ("error: submodule collection failed with error "
         +:+ format_d exitcode).

Definition announce (quiet : bool) (output_file : string) : list event :=
  if quiet then [] else [Print ("Writing " +:+ output_file +:+ "...")].

(** [<output_dir>/<module>/<name>.swift] *)
Definition output_path (j : job) (name : string) : string :=
  job_output_dir j +:+ "/" +:+ job_module j +:+ "/" +:+ name +:+ ".swift".

Definition dump_command (j : job) (printed : string) : list string :=
  job_cmd j ++ job_extra_dump_args j ++ ["-module-to-print=" +:+ printed].

(** Dumping one unit into the file called after [name]. *)
Definition dump_unit (j : job) (name printed : string) : list event :=
  announce (job_quiet j) (output_path j name)
  ++ [CallToFile (dump_command j printed) (output_path j name)].

Definition make_directory (j : job) : event :=
  Call ["mkdir"; "-p"; job_output_dir j +:+ "/" +:+ job_module j].

(** Whether the file of the module can be opened once the job has made its
    directory. *)
Definition top_opens (w : world) (j : job) : bool :=
  can_open w (mkdir_p (job_output_dir j +:+ "/" +:+ job_module j))
    (output_path j (job_module j)).

(** Whether a file that lies directly in the directory of the module can be
    opened once the job has made that directory. *)
Definition sub_opens (w : world) (j : job) : bool :=
  let dir := job_output_dir j +:+ "/" +:+ job_module j in
  bool_decide (dir ∈ mkdir_p dir) || directory_exists w dir.

(** Neither LF nor CR. *)
Definition not_linebreak (c : ascii) : bool :=
  negb (Ascii.eqb c "010") && negb (Ascii.eqb c "013").

(** The scratch file and the output tree. *)
Definition scratch_touch : event := Call ["touch"; source_filename].

Definition scratch_remove : event := Call ["rm"; "-f"; source_filename].


(** The path lies in the output tree of one of the requested SDKs: it is
    [<output_dir>/<pretty_sdk_name(sdk)>/<module>], or a file in that
    directory, where the module and the file are proper components, so that
    no [..] leads out of the tree. *)
Definition in_output_tree (args : arguments) (path : string) : Prop :=
  ∃ sdk module,
    sdk ∈ args_sdk args ∧ proper_component module
    ∧ (path = args_output_dir args +:+ "/" +:+ pretty_sdk_name sdk +:+ "/"
              +:+ module
       ∨ ∃ file, proper_component file
           ∧ path = args_output_dir args +:+ "/" +:+ pretty_sdk_name sdk
                    +:+ "/" +:+ module +:+ "/" +:+ file).

(** The module names of a run are proper components within the embedded
    fragment of the import pattern: the explicit module when there is one,
    the discovered names otherwise (which can only fail to be proper by
    being [.] or [..]). *)
Definition proper_modules (w : world) (args : arguments) : Prop :=
  (truthy (args_module args) = true →
   proper_component (default "" (args_module args))
   ∧ Re.plain (default "" (args_module args)) = true)
  ∧ (truthy (args_module args) = false →
     ∀ sdk frameworks sdk_root,
       sdk ∈ args_sdk args →
       (collect_frameworks w sdk).2 = Ok (Collected frameworks sdk_root) →
       ("." ∉ frameworks) ∧ (".." ∉ frameworks)).

(** An event of the phase before the pool: it changes no file, and what it
    spawns is a query to [xcrun]. *)
Definition is_query (ev : event) : Prop :=
  modified ev = []
  ∧ ∀ command, invocation ev = Some command →
      ∃ sdk, command = sdk_path_query sdk ∨ command = sdk_version_query sdk.



(** Further vocabulary. *)

(** The text does not end in white space. *)
Definition ends_clean (s : string) : Prop :=
  ∀ pre c, s = pre +:+ String c "" → is_whitespace c = false.

(** What tells the output directories of two jobs apart. *)
Definition job_key (j : job) : string * string :=
  (job_output_dir j, job_module j).

Definition is_print (ev : event) : bool :=
  match ev with
  | Print _ => true
  | _ => false
  end.

(** The job with [quiet] set. *)
Definition silenced (j : job) : job := {|
  job_cmd := job_cmd j;
  job_extra_dump_args := job_extra_dump_args j;
  job_output_dir := job_output_dir j;
  job_module := job_module j;
  job_quiet := true;
|}.

(** ** Sample worlds *)

Definition LF : string := String "010" "".

(** Every SDK is installed; its frameworks directory holds two bundles (one
    of them deny-listed) and a stray file; module [Foo] has submodules. *)
Definition sample_spawn (args : list string) : Z * string * string :=
  match args with
  | ["xcrun"; "--show-sdk-path"; "-sdk"; sdk] =>
      (0, "/SDKs/" +:+ sdk +:+ ".sdk" +:+ LF, "")
  | ["xcrun"; "--show-sdk-version"; "-sdk"; _] => (0, "10.11" +:+ LF, "")
  | _ =>
      if bool_decide ("-module-to-print=Foo" ∈ args) then
        (0, "import Foo" +:+ LF +:+ "@exported import Foo.Bar" +:+ LF
            +:+ "import Foo.Baz.Qux" +:+ LF +:+ "import Foo.Bar" +:+ LF, "")
      else (1, "", "unknown module")
  end.

Definition sample_world : world := {|
  spawn := sample_spawn;
  entries _ := Some ["System.framework"; "Foo.framework"; "README"];
  directory_exists _ := false;
|}.

(** The same, except that [xcrun --show-sdk-path] fails for [macosx]. *)
Definition broken_world : world := {|
  spawn args :=
    if bool_decide (args = ["xcrun"; "--show-sdk-path"; "-sdk"; "macosx"])
    then (1, "", "xcrun: error: SDK cannot be located")
    else sample_spawn args;
  entries := entries sample_world;
  directory_exists _ := false;
|}.

Definition sample_arguments (sdks : list string) (module : option string)
  : arguments := {|
  args_module := module; args_jobs := None; args_sdk := sdks;
  args_target := None; args_swift_ide_test := "swift-ide-test";
  args_swift_3 := false; args_output_dir := "out"; args_quiet := false;
|}.

Definition sample_job : job :=
  job_for ["swift-ide-test"] ["-skip-imports"] "macosx" "/SDKs/macosx.sdk"
    "x86_64-apple-macosx10.11" "out" false "AppKit".

(** A world in which the submodule listing of every module is the single
    line [@exported import Foo.Bar]. *)
Definition attributed_world : world := {|
  spawn _ := (0, "@exported import Foo.Bar" +:+ LF, "");
  entries _ := Some [];
  directory_exists _ := false;
|}.

(** The sample world with the directory listed, and the submodules printed,
    in another order and with repetitions. *)
Definition shuffled_world : world := {|
  spawn args :=
    if bool_decide ("-module-to-print=Foo" ∈ args) then
      (0, "import Foo.Baz.Qux" +:+ LF +:+ "import Foo.Bar" +:+ LF
          +:+ "import Foo" +:+ LF +:+ "@exported import Foo.Bar" +:+ LF
          +:+ "import Foo" +:+ LF, "")
    else sample_spawn args;
  entries _ :=
    Some ["README"; "Foo.framework"; "System.framework"; "Foo.framework"];
  directory_exists _ := false;
|}.

(** A world in which module [Foo] lists a submodule called [Foo]. *)
Definition umbrella_world : world := {|
  spawn _ := (0, "import Foo.Foo" +:+ LF +:+ "import Foo.Bar" +:+ LF, "");
  entries _ := Some [];
  directory_exists _ := false;
|}.

(** The sample world with an empty frameworks directory. *)
Definition bare_world : world := {|
  spawn := sample_spawn;
  entries _ := Some [];
  directory_exists _ := false;
|}.

(** The sample world with stray entries in the frameworks directory: the
    debug symbols of a bundle, a text file, a directory of another kind. *)
Definition stray_world : world := {|
  spawn := sample_spawn;
  entries _ :=
    Some ["Foo.framework.dSYM"; "README.framework.txt"; "Bar.frameworks"];
  directory_exists _ := false;
|}.

(** The sample world in which a module called [a/b] has a submodule. *)
Definition slash_world : world := {|
  spawn args :=
    if bool_decide ("-module-to-print=a/b" ∈ args) then
      (0, "import a/b.Sub" +:+ LF, "")
    else sample_spawn args;
  entries := entries sample_world;
  directory_exists _ := false;
|}.

(** The sample world for a run with the module [../x]: once a job has made
    [out/<label>/../x], which is the directory [out/x], the path
    [out/<label>/../x/..] names the directory [out]. *)
Definition climbing_world : world := {|
  spawn := sample_spawn;
  entries := entries sample_world;
  directory_exists d :=
    bool_decide (d ∈ ["out/OSX/../x/.."; "out/iOS/../x/.."]);
|}.

(** * Properties *)

(** ** The embedding at work *)

Example rstrip_newline :
  rstrip ("/SDKs/MacOSX.sdk " +:+ LF) = "/SDKs/MacOSX.sdk".
Proof. reflexivity. Qed.

Example splitlines_mixed :
  splitlines ("a" +:+ String "013" LF +:+ "b" +:+ LF +:+ LF) = ["a"; "b"; ""].
Proof. reflexivity. Qed.

Example find_inside : find "xmacosx" "macosx" = 1.
Proof. reflexivity. Qed.

Example find_absent : find "iphonesimulator" "iphoneos" = -1.
Proof. reflexivity. Qed.

Example format_d_negative : format_d (-9) = "-9".
Proof. reflexivity. Qed.

Example pretty_sdk_name_simulators :
  pretty_sdk_name <$> ["macosx10.11"; "iphoneos"; "watchos.simulator";
                       "appletvos.simulator"; "iphonesimulator"]
  = ["OSX"; "iOS"; "watchOS"; "tvOS"; "unknownOS"].
Proof. reflexivity. Qed.

(** The framework pattern backtracks to the last [.framework]. *)
Example framework_matcher_greedy :
  Re.exec framework_matcher <$> ["A.framework.framework"; "Foo.frameworks";
                                 "Foo"; ".framework"; "My-Kit.framework"]
  = [Some "A.framework"; Some "Foo"; None; None; None].
Proof. reflexivity. Qed.

(** The import pattern takes the last import of the line. *)
Example import_matcher_last :
  Re.exec (import_matcher "Foo")
    <$> ["import Foo.Bar.Baz // import Foo.Q"; "import XFoo.Bar";
         "import Foo.Bar-x"; "import Foo"]
  = [Some "Q"; None; Some "Bar"; None].
Proof. reflexivity. Qed.

Example sorted_bytewise :
  sorted (list_to_set ["b"; "a"; "B"; "ab"; "a"]) = ["B"; "a"; "ab"; "b"].
Proof. vm_compute. reflexivity. Qed.

(** One SDK, one bundle that is kept and one that is deny-listed: one job,
    three files. *)
Example macosx_run :
  ∃ events worker,
    main sample_world (sample_arguments ["macosx"] None)
    = Dispatched events [worker] [scratch_remove]
    ∧ (file_writes worker.1).*2
      = ["out/OSX/Foo/Foo.swift"; "out/OSX/Foo/Bar.swift";
         "out/OSX/Foo/Baz.Qux.swift"].
Proof. eexists _, _. split; vm_compute; reflexivity. Qed.

(** ** Strings *)

Lemma string_app_nil_l (s : string) : "" +:+ s = s.
Proof. reflexivity. Qed.

Lemma string_app_cons (c : ascii) (s t : string) :
  String c s +:+ t = String c (s +:+ t).
Proof. reflexivity. Qed.

Lemma string_app_nil_r (s : string) : s +:+ "" = s.
Proof.
  induction s as [|c s IH]; [reflexivity|].
  by rewrite string_app_cons, IH.
Qed.

Lemma string_app_assoc (s t u : string) : (s +:+ t) +:+ u = s +:+ t +:+ u.
Proof.
  induction s as [|c s IH]; [reflexivity|].
  by rewrite !string_app_cons, IH.
Qed.

Lemma prefix_starts_with (p s : string) :
  String.prefix p s = true ↔ starts_with p s.
Proof.
  revert s. induction p as [|c p IH]; intros s.
  - split; [intros _; by exists s|]. intros _. by destruct s.
  - destruct s as [|d s]; simpl.
    + split; [done|]. intros [rest Hr]. by rewrite string_app_cons in Hr.
    + destruct (ascii_dec c d) as [->|Hcd].
      * rewrite IH. split; intros [rest Hr]; exists rest.
        -- by rewrite string_app_cons, Hr.
        -- rewrite string_app_cons in Hr. congruence.
      * split; [done|]. intros [rest Hr].
        rewrite string_app_cons in Hr. congruence.
Qed.

Lemma all_chars_app (P : ascii → bool) (s t : string) :
  all_chars P (s +:+ t) = all_chars P s && all_chars P t.
Proof.
  induction s as [|c s IH]; [reflexivity|].
  rewrite string_app_cons. simpl. rewrite IH. by destruct (P c).
Qed.

Lemma slash_split_cons (s1 s2 t1 t2 : string) :
  all_chars not_slash s1 = true → all_chars not_slash s2 = true →
  s1 +:+ String "/" t1 = s2 +:+ String "/" t2 → s1 = s2 ∧ t1 = t2.
Proof.
  revert s2. induction s1 as [|c s1 IH]; intros [|d s2] H1 H2 Heq.
  - rewrite !string_app_nil_l in Heq. by injection Heq as ->.
  - rewrite string_app_nil_l, string_app_cons in Heq. injection Heq as <- _.
    simpl in H2. discriminate H2.
  - rewrite string_app_nil_l, string_app_cons in Heq. injection Heq as -> _.
    simpl in H1. discriminate H1.
  - rewrite !string_app_cons in Heq. injection Heq as -> Heq.
    simpl in H1, H2.
    apply andb_true_iff in H1 as [_ H1]. apply andb_true_iff in H2 as [_ H2].
    by destruct (IH s2 H1 H2 Heq) as [-> ->].
Qed.

(** Texts without [/] before a [/] can be told apart. *)
Lemma slash_split (s1 s2 t1 t2 : string) :
  all_chars not_slash s1 = true → all_chars not_slash s2 = true →
  s1 +:+ "/" +:+ t1 = s2 +:+ "/" +:+ t2 → s1 = s2 ∧ t1 = t2.
Proof. apply slash_split_cons. Qed.

(** ** [str.find] *)

Lemma find_from_unfold (sub s : string) (i : Z) :
  find_from sub s i =
  if String.prefix sub s then i
  else match s with
       | "" => -1
       | String _ s' => find_from sub s' (i + 1)
       end.
Proof. by destruct s. Qed.

Lemma find_from_range (sub s : string) (i : Z) :
  find_from sub s i = -1 ∨ i ≤ find_from sub s i.
Proof.
  revert i. induction s as [|c s IH]; intros i; rewrite find_from_unfold.
  - destruct (String.prefix sub ""); lia.
  - destruct (String.prefix sub (String c s)); [lia|].
    destruct (IH (i + 1)); lia.
Qed.

(** [s.find(sub) == 0] tests that [s] begins with [sub]. *)
Lemma find_zero (s sub : string) :
  (find s sub =? 0) = String.prefix sub s.
Proof.
  unfold find. rewrite find_from_unfold.
  destruct (String.prefix sub s); [done|]. destruct s as [|c s]; [done|].
  destruct (find_from_range sub s (0 + 1)); lia.
Qed.

(** ** Computations *)

Lemma bind_events {A B} (m : M A) (f : A → M B) :
  (bind m f).1
  = m.1 ++ match m.2 with Ok a => (f a).1 | Raise _ => [] end.
Proof.
  unfold bind. destruct (m.2); simpl; [done|]. by rewrite app_nil_r.
Qed.

Lemma bind_outcome {A B} (m : M A) (f : A → M B) :
  (bind m f).2 = match m.2 with Ok a => (f a).2 | Raise e => Raise e end.
Proof. unfold bind. by destruct (m.2). Qed.

Lemma bind_ok {A B} (m : M A) (f : A → M B) (b : B) :
  (bind m f).2 = Ok b ↔ ∃ a, m.2 = Ok a ∧ (f a).2 = Ok b.
Proof.
  rewrite bind_outcome. destruct (m.2) as [a|e].
  - split; [by exists a|]. by intros (a' & [= <-] & ?).
  - split; [done|]. by intros (a' & ? & ?).
Qed.

Lemma elem_of_concat {A} (x : A) (ls : list (list A)) :
  x ∈ concat ls ↔ ∃ l, x ∈ l ∧ l ∈ ls.
Proof.
  induction ls as [|l ls IH]; simpl.
  - split; [by intros ?%elem_of_nil|]. by intros (? & _ & ?%elem_of_nil).
  - rewrite elem_of_app, IH. split.
    + intros [?|(l' & ? & ?)].
      * exists l. split; [done|by left].
      * exists l'. split; [done|by right].
    + intros (l' & ? & [->|?]%elem_of_cons); [by left|]. right. by exists l'.
Qed.

Lemma for_each_events {A} (xs : list A) (body : A → M unit) :
  (∀ x, x ∈ xs → ∃ u, (body x).2 = Ok u) →
  (for_each xs body).1 = concat ((λ x, (body x).1) <$> xs)
  ∧ (for_each xs body).2 = Ok ().
Proof.
  induction xs as [|x xs IH]; intros Hok; [done|].
  destruct (Hok x) as [u Hu]; [by left|].
  destruct IH as [IH1 IH2]; [intros y Hy; apply Hok; by right|].
  simpl. rewrite bind_events, bind_outcome, Hu. by rewrite IH1, IH2.
Qed.

(** ** [collect_frameworks] and [create_dump_module_api_args], case by case *)

Section Cases.

Variable w : world.

(** The four ways [collect_frameworks] can go. *)
Lemma collect_frameworks_cases (sdk : string) :
  let q1 := spawn w (sdk_path_query sdk) in
  let q2 := spawn w (sdk_version_query sdk) in
  let root := rstrip q1.1.2 in
  collect_frameworks w sdk =
  if negb (q1.1.1 =? 0) then
    ([Popen (sdk_path_query sdk); collection_failed q1.1.1], Ok EmptyTuple)
  else if negb (q2.1.1 =? 0) then
    ([Popen (sdk_path_query sdk); Popen (sdk_version_query sdk);
      collection_failed q2.1.1], Ok EmptyTuple)
  else
    let before :=
      [Popen (sdk_path_query sdk); Popen (sdk_version_query sdk);
       collecting sdk (rstrip q2.1.2) root;
       ListDir (frameworks_dir_of root)] in
    match entries w (frameworks_dir_of root) with
    | Some listing =>
        (before, Ok (Collected (sorted (frameworks_of listing)) root))
    | None => (before, Raise (OSError (frameworks_dir_of root)))
    end.
Proof.
  unfold collect_frameworks, run_command, listdir, sdk_path_query,
    sdk_version_query, collecting, collection_failed, frameworks_dir_of.
  destruct (spawn w ["xcrun"; "--show-sdk-path"; "-sdk"; sdk])
    as [[c1 p1] e1].
  destruct (spawn w ["xcrun"; "--show-sdk-version"; "-sdk"; sdk])
    as [[c2 p2] e2].
  cbv [bind emit ret raise fst snd negb]. cbn [app].
  destruct (c1 =? 0); [|done].
  destruct (c2 =? 0); [|done].
  by destruct (entries w (rstrip p1 +:+ "/System/Library/Frameworks")).
Qed.

End Cases.

Lemma sdk_target_of_events (sdk : string) (target : option string) :
  (sdk_target_of sdk target).1 = [].
Proof.
  unfold sdk_target_of, subscript. destruct (truthy target); [done|].
  by destruct (DEFAULT_TARGET_BASED_ON_SDK !! sdk).
Qed.

Section CreateCases.

Variables (w : world) (cmd_common cmd_extra_args : list string).
Variables (sdk : string) (module target : option string).
Variables (source_file output_dir : string) (quiet : bool).

Local Abbreviation create :=
  (create_dump_module_api_args w cmd_common cmd_extra_args sdk module target
     source_file output_dir quiet).

(** Job construction issues the events of framework collection and no
    other. *)
Lemma create_events : create.1 = (collect_frameworks w sdk).1.
Proof.
  unfold create_dump_module_api_args.
  rewrite bind_events. destruct ((collect_frameworks w sdk).2) as [[|fw root]|e].
  - by rewrite app_nil_r.
  - rewrite bind_events, sdk_target_of_events.
    destruct ((sdk_target_of sdk target).2); [|by rewrite app_nil_r].
    destruct (truthy module); by rewrite app_nil_r.
  - by rewrite app_nil_r.
Qed.

(** Its outcome, by the outcome of framework collection and of the target
    lookup. *)
Lemma create_outcome :
  create.2 =
  match (collect_frameworks w sdk).2 with
  | Raise e => Raise e
  | Ok EmptyTuple => Raise ValueError
  | Ok (Collected frameworks sdk_root) =>
      match (sdk_target_of sdk target).2 with
      | Raise e => Raise e
      | Ok sdk_target =>
          let job_of :=
            job_for cmd_common cmd_extra_args sdk sdk_root sdk_target
              output_dir quiet in
          Ok (if truthy module then [job_of (default "" module)]
              else job_of <$> frameworks)
      end
  end.
Proof.
  unfold create_dump_module_api_args.
  rewrite bind_outcome.
  destruct ((collect_frameworks w sdk).2) as [[|fw root]|e]; [done| |done].
  rewrite bind_outcome.
  destruct ((sdk_target_of sdk target).2); [|done].
  by destruct (truthy module).
Qed.

End CreateCases.

(** ** The pattern matcher *)

Module ReFacts.
Import Re.

Lemma exec_one (k : cls) (p : pattern) (s g : string) :
  exec (One k :: p) s = Some g
  ↔ ∃ c s', s = String c s' ∧ mem k c = true ∧ exec p s' = Some g.
Proof.
  simpl. destruct s as [|c s'].
  - split; [done|]. by intros (? & ? & ? & _).
  - destruct (mem k c) eqn:Hk.
    + split; [by exists c, s'|]. by intros (? & ? & [= <- <-] & _ & ?).
    + split; [done|]. intros (? & ? & [= <- <-] & ? & _). congruence.
Qed.

Lemma exec_lits (t : string) (p : pattern) (s g : string) :
  exec (lits t ++ p) s = Some g ↔ ∃ s', s = t +:+ s' ∧ exec p s' = Some g.
Proof.
  revert s. induction t as [|c t IH]; intros s.
  - simpl. split; [by exists s|]. by intros (? & -> & ?).
  - change (lits (String c t) ++ p) with (One (Lit c) :: (lits t ++ p)).
    rewrite exec_one. split.
    + intros (d & s' & -> & Hd & (s'' & -> & Hg)%IH).
      apply Ascii.eqb_eq in Hd as ->. by exists s''.
    + intros (s' & -> & Hg). exists c, (t +:+ s'). split; [done|].
      split; [apply Ascii.eqb_refl|]. apply IH. by exists s'.
Qed.

Lemma greedy_sound (k : cls) (cont : string → option string) (s g : string) :
  greedy k cont s = Some g →
  ∃ u s', s = u +:+ s' ∧ all_chars (mem k) u = true ∧ cont s' = Some g.
Proof.
  revert g. induction s as [|c s IH]; intros g; simpl.
  - intros Hc. by exists "", "".
  - destruct (mem k c) eqn:Hk.
    + destruct (greedy k cont s) as [g'|] eqn:Hg.
      * intros [= <-]. destruct (IH g' eq_refl) as (u & s' & -> & Hu & Hc).
        exists (String c u), s'. simpl. by rewrite Hk.
      * intros Hc. by exists "", (String c s).
    + intros Hc. by exists "", (String c s).
Qed.

Lemma greedy_complete (k : cls) (cont : string → option string)
  (u s' : string) :
  all_chars (mem k) u = true → is_Some (cont s') →
  is_Some (greedy k cont (u +:+ s')).
Proof.
  intros Hu Hc. induction u as [|c u IH].
  - rewrite string_app_nil_l. destruct s' as [|d s']; simpl; [done|].
    destruct (mem k d); [|done]. by destruct (greedy k cont s').
  - simpl in Hu. apply andb_true_iff in Hu as [Hk Hu].
    rewrite string_app_cons. simpl. rewrite Hk.
    destruct (IH Hu) as [g ->]. by eexists.
Qed.

(** The text of a group is a run of characters of its class, after which the
    rest of the pattern matches. *)
Lemma greedy_cap_sound (k : cls) (cont : string → option string)
  (s g : string) :
  greedy_cap k cont s = Some g →
  ∃ s', s = g +:+ s' ∧ all_chars (mem k) g = true ∧ is_Some (cont s').
Proof.
  revert g. induction s as [|c s IH]; intros g; simpl.
  - destruct (cont "") eqn:Hc; [|done]. intros [= <-]. by exists "".
  - destruct (mem k c) eqn:Hk.
    + destruct (greedy_cap k cont s) as [g'|] eqn:Hg.
      * intros [= <-]. destruct (IH g' eq_refl) as (s' & -> & Hu & Hc).
        exists s'. simpl. by rewrite Hk.
      * destruct (cont (String c s)) eqn:Hc; [|done]. intros [= <-].
        by exists (String c s).
    + destruct (cont (String c s)) eqn:Hc; [|done]. intros [= <-].
      by exists (String c s).
Qed.

Lemma greedy_cap_complete (k : cls) (cont : string → option string)
  (u s' : string) :
  all_chars (mem k) u = true → is_Some (cont s') →
  is_Some (greedy_cap k cont (u +:+ s')).
Proof.
  intros Hu [r Hc]. induction u as [|c u IH].
  - rewrite string_app_nil_l. destruct s' as [|d s']; simpl.
    + by rewrite Hc.
    + destruct (mem k d); [|by rewrite Hc].
      destruct (greedy_cap k cont s'); [done|]. by rewrite Hc.
  - simpl in Hu. apply andb_true_iff in Hu as [Hk Hu].
    rewrite string_app_cons. simpl. rewrite Hk.
    destruct (IH Hu) as [g ->]. by eexists.
Qed.

(** When the rest of the pattern matches anything, the group takes the whole
    run. *)
Lemma greedy_cap_end (k : cls) (cont : string → option string)
  (s g : string) :
  (∀ s', is_Some (cont s')) →
  greedy_cap k cont s = Some g →
  ∃ s', s = g +:+ s' ∧ all_chars (mem k) g = true
        ∧ match s' with "" => True | String c _ => mem k c = false end.
Proof.
  intros Hcont. revert g. induction s as [|c s IH]; intros g; simpl.
  - destruct (Hcont "") as [r ->]. intros [= <-]. by exists "".
  - destruct (mem k c) eqn:Hk.
    + destruct (greedy_cap k cont s) as [g'|] eqn:Hg.
      * intros [= <-]. destruct (IH g' eq_refl) as (s' & -> & Hu & Hend).
        exists s'. simpl. by rewrite Hk.
      * exfalso.
        destruct (greedy_cap_complete k cont "" s) as [? Hs]; try done.
        rewrite string_app_nil_l in Hs. congruence.
    + destruct (Hcont (String c s)) as [r ->]. intros [= <-].
      by exists (String c s).
Qed.

Lemma exec_group (k : cls) (p : pattern) (s g : string) :
  exec (Group k :: p) s = Some g →
  ∃ s', s = g +:+ s' ∧ g ≠ "" ∧ all_chars (mem k) g = true
        ∧ is_Some (exec p s').
Proof.
  simpl. destruct s as [|c s]; [done|].
  destruct (mem k c) eqn:Hk; [|done].
  destruct (greedy_cap k (exec p) s) as [g'|] eqn:Hg; [|done].
  intros [= <-]. apply greedy_cap_sound in Hg as (s' & -> & Hu & Hc).
  exists s'. simpl. by rewrite Hk.
Qed.

Lemma exec_group_complete (k : cls) (p : pattern) (u s' : string) :
  u ≠ "" → all_chars (mem k) u = true → is_Some (exec p s') →
  is_Some (exec (Group k :: p) (u +:+ s')).
Proof.
  intros Hne Hu Hc. destruct u as [|c u]; [done|].
  simpl in Hu. apply andb_true_iff in Hu as [Hk Hu].
  rewrite string_app_cons. simpl. rewrite Hk.
  destruct (greedy_cap_complete k (exec p) u s' Hu Hc) as [g ->].
  by eexists.
Qed.

Lemma exec_group_end (k : cls) (s g : string) :
  exec [Group k] s = Some g →
  ∃ s', s = g +:+ s' ∧ g ≠ "" ∧ all_chars (mem k) g = true
        ∧ match s' with "" => True | String c _ => mem k c = false end.
Proof.
  change (exec [Group k] s) with
    match s with
    | String c s' =>
        if mem k c then String c <$> greedy_cap k (exec []) s' else None
    | "" => None
    end.
  destruct s as [|c s]; [done|].
  destruct (mem k c) eqn:Hk; [|done].
  destruct (greedy_cap k (exec []) s) as [g'|] eqn:Hg; [|done].
  intros [= <-]. apply greedy_cap_end in Hg as (s' & -> & Hu & Hend).
  - exists s'. simpl. by rewrite Hk.
  - intros ?. by eexists.
Qed.

Lemma exec_plus (k : cls) (p : pattern) (s g : string) :
  exec (Plus k :: p) s = Some g →
  ∃ u s', s = u +:+ s' ∧ u ≠ "" ∧ all_chars (mem k) u = true
          ∧ exec p s' = Some g.
Proof.
  simpl. destruct s as [|c s]; [done|].
  destruct (mem k c) eqn:Hk; [|done].
  intros (u & s' & -> & Hu & Hc)%greedy_sound.
  exists (String c u), s'. simpl. by rewrite Hk.
Qed.

Lemma exec_interpolated (module : string) (p : pattern) (s g : string) :
  exec (interpolated module ++ p) s = Some g →
  ∃ m s', s = m +:+ s' ∧ instance_of module m ∧ exec p s' = Some g.
Proof.
  revert s. induction module as [|c module IH]; intros s.
  - intros Hg. by exists "", s.
  - change (interpolated (String c module) ++ p)
      with ((if Ascii.eqb c "." then One Any else One (Lit c))
              :: (interpolated module ++ p)).
    destruct (Ascii.eqb c ".") eqn:Hdot;
      intros (d & s' & -> & Hd & (m & s'' & -> & Hm & Hg)%IH)%exec_one;
      exists (String d m), s''; simpl; rewrite Hdot;
      (split; [done|]); (split; [|done]); (split; [|done]).
    + simpl in Hd. apply negb_true_iff, Ascii.eqb_neq in Hd. done.
    + by apply Ascii.eqb_eq in Hd.
Qed.

Lemma exec_plus_complete (k : cls) (p : pattern) (u s' : string) :
  u ≠ "" → all_chars (mem k) u = true → is_Some (exec p s') →
  is_Some (exec (Plus k :: p) (u +:+ s')).
Proof.
  intros Hne Hu Hc. destruct u as [|c u]; [done|].
  simpl in Hu. apply andb_true_iff in Hu as [Hk Hu].
  rewrite string_app_cons. simpl. rewrite Hk.
  by apply greedy_complete.
Qed.

Lemma exec_interpolated_complete (module : string) (p : pattern)
  (m s' : string) :
  instance_of module m →
  exec (interpolated module ++ p) (m +:+ s') = exec p s'.
Proof.
  revert m. induction module as [|c module IH]; intros [|d m]; try done.
  intros [Hd Hm]. rewrite string_app_cons.
  change (interpolated (String c module) ++ p)
    with ((if Ascii.eqb c "." then One Any else One (Lit c))
            :: (interpolated module ++ p)).
  destruct (Ascii.eqb c "."); simpl.
  - apply Ascii.eqb_neq in Hd. rewrite Hd. simpl. by apply IH.
  - rewrite Hd, Ascii.eqb_refl. by apply IH.
Qed.

Lemma exec_lits_only (t s : string) :
  is_Some (exec (lits t) s) ↔ starts_with t s.
Proof.
  rewrite <- (app_nil_r (lits t)). split.
  - intros [g (s' & -> & _)%exec_lits]. by exists s'.
  - intros [s' ->]. exists "". apply exec_lits. by exists s'.
Qed.

End ReFacts.

(** ** [sorted(list(set))] *)

Lemma sorted_elem_of (xs : gset string) (n : string) :
  n ∈ sorted xs ↔ n ∈ xs.
Proof.
  unfold sorted. rewrite merge_sort_Permutation. apply elem_of_elements.
Qed.

Lemma sorted_NoDup (xs : gset string) : NoDup (sorted xs).
Proof.
  unfold sorted. rewrite merge_sort_Permutation. apply NoDup_elements.
Qed.

Lemma sorted_StronglySorted (xs : gset string) :
  StronglySorted String.le (sorted xs).
Proof. apply (StronglySorted_merge_sort String.le). Qed.

(** ** The two discovery loops *)

Lemma elem_of_submodules_of (module : string) (lines : list string)
  (n : string) :
  n ∈ submodules_of module lines
  ↔ ∃ line, line ∈ lines ∧ Re.exec (import_matcher module) line = Some n.
Proof.
  unfold submodules_of.
  enough (∀ acc : gset string,
            n ∈ foldl (λ submodules line,
                         match Re.exec (import_matcher module) line with
                         | Some g => {[g]} ∪ submodules
                         | None => submodules
                         end) acc lines
            ↔ n ∈ acc ∨ ∃ line, line ∈ lines
                ∧ Re.exec (import_matcher module) line = Some n) as Hgen.
  { rewrite Hgen. split; [|by right].
    intros [Hin|?]; [|done]. by apply not_elem_of_empty in Hin. }
  induction lines as [|l lines IH]; intros acc; cbn [foldl].
  - split; [by left|]. intros [?|(? & []%elem_of_nil & _)]. done.
  - rewrite IH. destruct (Re.exec (import_matcher module) l) as [g|] eqn:Hl.
    + rewrite elem_of_union, elem_of_singleton. split.
      * intros [[->|?]|(l' & ? & ?)]; [right|by left|right].
        -- exists l. split; [by left|done].
        -- exists l'. split; [by right|done].
      * intros [?|(l' & [->|?]%elem_of_cons & Hl')].
        -- left. by right.
        -- left. left. congruence.
        -- right. by exists l'.
    + split.
      * intros [?|(l' & ? & ?)]; [by left|right].
        exists l'. split; [by right|done].
      * intros [?|(l' & [->|?]%elem_of_cons & Hl')]; [by left|congruence|].
        right. by exists l'.
Qed.

Lemma elem_of_frameworks_of (listing : list string) (n : string) :
  n ∈ frameworks_of listing
  ↔ (n ∉ SKIPPED_FRAMEWORKS)
    ∧ ∃ entry, entry ∈ listing ∧ Re.exec framework_matcher entry = Some n.
Proof.
  unfold frameworks_of.
  enough (∀ acc : gset string,
            n ∈ foldl (λ frameworks entry,
                         match Re.exec framework_matcher entry with
                         | Some framework =>
                             if decide (framework ∈ SKIPPED_FRAMEWORKS)
                             then frameworks
                             else {[framework]} ∪ frameworks
                         | None => frameworks
                         end) acc listing
            ↔ n ∈ acc
              ∨ ((n ∉ SKIPPED_FRAMEWORKS)
                 ∧ ∃ entry, entry ∈ listing
                     ∧ Re.exec framework_matcher entry = Some n)) as Hgen.
  { rewrite Hgen. split; [|by right].
    intros [Hin|?]; [|done]. by apply not_elem_of_empty in Hin. }
  induction listing as [|e listing IH]; intros acc; cbn [foldl].
  - split; [by left|]. intros [?|(_ & ? & []%elem_of_nil & _)]. done.
  - rewrite IH. destruct (Re.exec framework_matcher e) as [g|] eqn:He.
    + destruct (decide (g ∈ SKIPPED_FRAMEWORKS)) as [Hskip|Hkeep].
      * split.
        -- intros [?|(? & e' & ? & ?)]; [by left|right].
           split; [done|]. exists e'. split; [by right|done].
        -- intros [?|(Hn & e' & [->|?]%elem_of_cons & He')]; [by left| |].
           ++ congruence.
           ++ right. split; [done|]. by exists e'.
      * rewrite elem_of_union, elem_of_singleton. split.
        -- intros [[->|?]|(? & e' & ? & ?)]; [right|by left|right].
           ++ split; [done|]. exists e. split; [by left|done].
           ++ split; [done|]. exists e'. split; [by right|done].
        -- intros [?|(Hn & e' & [->|?]%elem_of_cons & He')].
           ++ left. by right.
           ++ left. left. congruence.
           ++ right. split; [done|]. by exists e'.
    + split.
      * intros [?|(? & e' & ? & ?)]; [by left|right].
        split; [done|]. exists e'. split; [by right|done].
      * intros [?|(Hn & e' & [->|?]%elem_of_cons & He')];
          [by left|congruence|].
        right. split; [done|]. by exists e'.
Qed.

(** What the framework pattern accepts. *)
Lemma framework_matcher_sound (entry name : string) :
  Re.exec framework_matcher entry = Some name → framework_entry entry name.
Proof.
  change framework_matcher with (Re.Group Re.Word :: Re.lits ".framework").
  intros (rest & -> & Hne & Hword & Hlits)%ReFacts.exec_group.
  apply ReFacts.exec_lits_only in Hlits as [rest' ->].
  split; [done|]. split; [done|]. exists rest'.
  by rewrite string_app_assoc.
Qed.

Lemma framework_matcher_complete (entry name : string) :
  framework_entry entry name → is_Some (Re.exec framework_matcher entry).
Proof.
  intros (Hne & Hword & rest & ->). rewrite string_app_assoc.
  change framework_matcher with (Re.Group Re.Word :: Re.lits ".framework").
  apply ReFacts.exec_group_complete; [done..|].
  apply ReFacts.exec_lits_only. by exists rest.
Qed.

(** ** The import pattern *)

(** What the import pattern accepts: the text it captures is the name of an
    import found somewhere in the line. *)
Lemma import_matcher_sound (module line sub : string) :
  Re.exec (import_matcher module) line = Some sub →
  import_line module line sub.
Proof.
  change (import_matcher module) with
    (Re.Star Re.Any
     :: (Re.lits "import"
         ++ Re.Plus Re.Space
            :: (Re.interpolated module
                ++ [Re.One (Re.Lit "."); Re.Group Re.Word]))).
  change (Re.exec (Re.Star Re.Any :: ?p) line)
    with (Re.greedy Re.Any (Re.exec p) line).
  intros (pre & l1 & -> & _ & H1)%ReFacts.greedy_sound.
  apply ReFacts.exec_lits in H1 as (l2 & -> & H2).
  apply ReFacts.exec_plus in H2 as (ws & l3 & -> & Hws & Hspace & H3).
  apply ReFacts.exec_interpolated in H3 as (m & l4 & -> & Hm & H4).
  apply ReFacts.exec_one in H4 as (dot & l5 & -> & Hdot & H5).
  apply Ascii.eqb_eq in Hdot as ->.
  apply ReFacts.exec_group_end in H5 as (rest & -> & Hne & Hword & Hend).
  exists pre, ws, m, rest. repeat split; done.
Qed.

(** ** [collect_submodules], case by case *)

Lemma collect_submodules_cases (w : world) (cmd : list string)
  (module : string) :
  let q := spawn w (submodules_query cmd module) in
  collect_submodules w cmd module =
  if negb (q.1.1 =? 0) then
    ([Popen (submodules_query cmd module); submodules_failed q.1.1], Ok [])
  else
    ([Popen (submodules_query cmd module)],
     Ok (sorted (submodules_of module (splitlines q.1.2)))).
Proof.
  unfold collect_submodules, run_command, submodules_query,
    submodules_failed.
  destruct (spawn w _) as [[c out] err].
  cbv [bind emit ret fst snd negb]. cbn [app].
  by destruct (c =? 0).
Qed.

Lemma collect_submodules_returns (w : world) (cmd : list string)
  (module : string) :
  ∃ submodules, (collect_submodules w cmd module).2 = Ok submodules.
Proof.
  rewrite collect_submodules_cases. simpl.
  destruct (negb _); eauto.
Qed.

Lemma string_length_app (s t : string) :
  String.length (s +:+ t) = (String.length s + String.length t)%nat.
Proof.
  induction s as [|c s IH]; [done|]. rewrite string_app_cons. simpl.
  by rewrite IH.
Qed.

Lemma string_app_inj_r (s s' t : string) : s +:+ t = s' +:+ t → s = s'.
Proof.
  revert s'. induction s as [|c s IH]; intros [|d s'] Heq; [done| | |].
  - apply (f_equal String.length) in Heq.
    rewrite string_app_nil_l, string_app_cons in Heq. simpl in Heq.
    rewrite string_length_app in Heq. lia.
  - apply (f_equal String.length) in Heq.
    rewrite string_app_nil_l, string_app_cons in Heq. simpl in Heq.
    rewrite string_length_app in Heq. lia.
  - rewrite !string_app_cons in Heq. injection Heq as -> Heq.
    by rewrite (IH s' Heq).
Qed.

Lemma output_path_inj (j : job) (n1 n2 : string) :
  output_path j n1 = output_path j n2 → n1 = n2.
Proof.
  unfold output_path. intros Heq.
  do 4 apply (inj (String.app _)) in Heq.
  by apply string_app_inj_r in Heq.
Qed.

Lemma word_char_not_slash (c : ascii) :
  Re.word_char c = true → not_slash c = true.
Proof.
  destruct c as [[] [] [] [] [] [] [] []]; vm_compute; done.
Qed.

Lemma word_not_slash (n : string) :
  all_chars Re.word_char n = true → all_chars not_slash n = true.
Proof.
  induction n as [|c n IH]; [done|]. simpl.
  intros [Hc Hn]%andb_true_iff. by rewrite (word_char_not_slash c Hc), IH.
Qed.

(** What submodule collection returns: a list without repetition of
    non-empty names over [[A-Za-z_0-9.]]. *)
Lemma collect_submodules_names (w : world) (cmd : list string)
  (module : string) (submodules : list string) :
  (collect_submodules w cmd module).2 = Ok submodules →
  NoDup submodules
  ∧ ∀ n, n ∈ submodules → n ≠ "" ∧ all_chars Re.word_char n = true.
Proof.
  rewrite collect_submodules_cases. cbv zeta.
  destruct (negb _); cbn [snd]; intros [= <-].
  - split; [constructor|]. by intros n ?%elem_of_nil.
  - split; [apply sorted_NoDup|].
    intros n (line & _ & Hm)%sorted_elem_of%elem_of_submodules_of.
    apply import_matcher_sound in Hm
      as (_ & _ & _ & _ & _ & _ & _ & _ & Hne & Hword & _).
    done.
Qed.

(** ** Opening an output file *)

Lemma has_slash_not_slash (s : string) :
  has_slash s = negb (all_chars not_slash s).
Proof.
  induction s as [|c s IH]; [done|]. simpl. rewrite IH. unfold not_slash.
  by destruct (Ascii.eqb c "/").
Qed.

(** The directory of a file is what stands before its last [/]. *)
Lemma dirname_slash (s t : string) :
  all_chars not_slash t = true → dirname (s +:+ String "/" t) = s.
Proof.
  intros Ht. induction s as [|c s IH].
  - rewrite string_app_nil_l. simpl. by rewrite has_slash_not_slash, Ht.
  - rewrite string_app_cons. simpl.
    rewrite has_slash_not_slash, all_chars_app, IH. simpl.
    by rewrite andb_false_r.
Qed.

Lemma dirname_output_path (j : job) (name : string) :
  all_chars not_slash name = true →
  dirname (output_path j name) = job_output_dir j +:+ "/" +:+ job_module j.
Proof.
  intros Hname. unfold output_path.
  rewrite <- (string_app_assoc (job_output_dir j) "/"), <- string_app_assoc.
  change ("/" +:+ name +:+ ".swift") with (String "/" (name +:+ ".swift")).
  rewrite dirname_slash; [by rewrite !string_app_assoc|].
  by rewrite all_chars_app, Hname.
Qed.

(** A path below a directory begins with [-] when the directory does. *)
Lemma prefix_dash_below (d m : string) :
  String.prefix "-" (d +:+ "/" +:+ m) = String.prefix "-" d.
Proof.
  destruct d as [|c d]; [done|]. rewrite string_app_cons.
  cbn [String.prefix]. destruct (ascii_dec "-" c); [|done].
  generalize (d +:+ "/" +:+ m). intros s. by destruct d, s.
Qed.

(** A file called after a name without [/] lies directly in the directory of
    the module. *)
Lemma can_open_sub (w : world) (j : job) (name : string) :
  all_chars not_slash name = true →
  can_open w (mkdir_p (job_output_dir j +:+ "/" +:+ job_module j))
    (output_path j name)
  = sub_opens w j.
Proof.
  intros Hname. unfold sub_opens, can_open.
  by rewrite (dirname_output_path j name Hname).
Qed.

Lemma top_opens_sub (w : world) (j : job) :
  all_chars not_slash (job_module j) = true → top_opens w j = sub_opens w j.
Proof. apply can_open_sub. Qed.

(** The job has made the directory of the module when [mkdir] takes its
    argument for a path. *)
Lemma sub_opens_made (w : world) (j : job) :
  String.prefix "-" (job_output_dir j) = false → sub_opens w j = true.
Proof.
  intros Hdash. unfold sub_opens, mkdir_p. cbv zeta.
  rewrite prefix_dash_below, Hdash.
  rewrite bool_decide_eq_true_2; [done|]. by left.
Qed.

Lemma top_opens_not_slash (w : world) (j : job) :
  String.prefix "-" (job_output_dir j) = false →
  all_chars not_slash (job_module j) = true → top_opens w j = true.
Proof.
  intros Hdash Hslash. by rewrite top_opens_sub, sub_opens_made.
Qed.

(** ** [dump_module_api], case by case *)

Section DumpCases.

Variables (w : world) (j : job) (submodules : list string).

Hypothesis Hsub :
  (collect_submodules w (job_cmd j) (job_module j)).2 = Ok submodules.

Local Abbreviation loop names :=
  (for_each names
     (λ submodule,
        bind (if job_quiet j then ret ()
              else emit (Print ("Writing " +:+ output_path j submodule
                                +:+ "...")))
          (λ _,
             output_command_result_to_file w
               (mkdir_p (job_output_dir j +:+ "/" +:+ job_module j))
               ((job_cmd j ++ job_extra_dump_args j)
                ++ ["-module-to-print=" +:+ job_module j +:+ "."
                    +:+ submodule])
               (output_path j submodule)))).

Lemma dump_module_api_unfold :
  dump_module_api w j =
  bind (collect_submodules w (job_cmd j) (job_module j))
    (λ submodules,
       bind (emit (make_directory j))
         (λ _,
            bind (if job_quiet j then ret ()
                  else emit (Print ("Writing "
                                    +:+ output_path j (job_module j)
                                    +:+ "...")))
              (λ _,
                 bind (output_command_result_to_file w
                         (mkdir_p
                            (job_output_dir j +:+ "/" +:+ job_module j))
                         (dump_command j (job_module j))
                         (output_path j (job_module j)))
                   (λ _, loop submodules)))).
Proof. reflexivity. Qed.

Lemma submodules_not_slash (x : string) :
  x ∈ submodules → all_chars not_slash x = true.
Proof.
  intros Hx. destruct (collect_submodules_names w _ _ _ Hsub) as [_ Hnames].
  destruct (Hnames x Hx) as [_ Hword]. by apply word_not_slash.
Qed.

(** The loop over the submodules when their files can be opened. *)
Lemma dump_submodules_loop :
  sub_opens w j = true →
  loop submodules
  = (concat ((λ submodule,
                dump_unit j submodule (job_module j +:+ "." +:+ submodule))
               <$> submodules), Ok ()).
Proof.
  intros Hopen. pose proof submodules_not_slash as Hnames.
  clear Hsub. induction submodules as [|x xs IH]; [done|].
  cbn [for_each]. rewrite IH; [|intros n Hn; apply Hnames; by right].
  unfold output_command_result_to_file.
  rewrite (can_open_sub w j x), Hopen; [|apply Hnames; by left].
  rewrite fmap_cons. cbn [concat].
  unfold dump_unit, announce, dump_command.
  rewrite <- (assoc_L (++) (job_cmd j)).
  by destruct (job_quiet j).
Qed.

(** The loop when they cannot: it raises at the first submodule. *)
Lemma dump_submodules_loop_fails (x : string) (xs : list string) :
  sub_opens w j = false → submodules = x :: xs →
  loop submodules
  = (announce (job_quiet j) (output_path j x),
     Raise (IOError (output_path j x))).
Proof.
  intros Hopen Hx. pose proof (submodules_not_slash x) as Hname.
  rewrite Hx in Hname |- *. cbn [for_each].
  unfold output_command_result_to_file.
  rewrite (can_open_sub w j x), Hopen; [|apply Hname; by left].
  unfold announce. by destruct (job_quiet j).
Qed.

(** The trace of a job whose files can be opened: the submodule query, the
    directory, the top-level dump, then one dump per submodule. *)
Lemma dump_module_api_cases :
  top_opens w j = true → sub_opens w j = true ∨ submodules = [] →
  dump_module_api w j =
  ((collect_submodules w (job_cmd j) (job_module j)).1
   ++ [make_directory j]
   ++ dump_unit j (job_module j) (job_module j)
   ++ concat ((λ submodule,
                 dump_unit j submodule
                   (job_module j +:+ "." +:+ submodule)) <$> submodules),
   Ok ()).
Proof.
  intros Htop Hopen. rewrite dump_module_api_unfold.
  unfold bind at 1. rewrite Hsub. cbn beta.
  assert (loop submodules
          = (concat ((λ submodule,
                        dump_unit j submodule
                          (job_module j +:+ "." +:+ submodule))
                       <$> submodules), Ok ())) as ->.
  { destruct Hopen as [Hopen| ->]; [by apply dump_submodules_loop|done]. }
  unfold output_command_result_to_file. unfold top_opens in Htop.
  rewrite Htop. unfold dump_unit, announce.
  by destruct (job_quiet j).
Qed.

(** The trace of a job whose first file cannot be opened: the job raises
    after it has announced the file, and writes nothing. *)
Lemma dump_module_api_fails :
  top_opens w j = false →
  dump_module_api w j =
  ((collect_submodules w (job_cmd j) (job_module j)).1
   ++ [make_directory j]
   ++ announce (job_quiet j) (output_path j (job_module j)),
   Raise (IOError (output_path j (job_module j)))).
Proof.
  intros Htop. rewrite dump_module_api_unfold.
  unfold bind at 1. rewrite Hsub. cbn beta.
  unfold output_command_result_to_file. unfold top_opens in Htop.
  rewrite Htop. unfold announce.
  by destruct (job_quiet j).
Qed.

(** The trace of a job whose first file can be opened and whose other files
    cannot: the job raises at the first submodule. *)
Lemma dump_module_api_fails_later (x : string) (xs : list string) :
  top_opens w j = true → sub_opens w j = false → submodules = x :: xs →
  dump_module_api w j =
  ((collect_submodules w (job_cmd j) (job_module j)).1
   ++ [make_directory j]
   ++ dump_unit j (job_module j) (job_module j)
   ++ announce (job_quiet j) (output_path j x),
   Raise (IOError (output_path j x))).
Proof.
  intros Htop Hopen Hx. rewrite dump_module_api_unfold.
  unfold bind at 1. rewrite Hsub. cbn beta.
  rewrite (dump_submodules_loop_fails x xs Hopen Hx).
  unfold output_command_result_to_file. unfold top_opens in Htop.
  rewrite Htop. unfold dump_unit, announce.
  by destruct (job_quiet j).
Qed.

(** These are all the cases. *)
Lemma dump_module_api_split :
  top_opens w j = false
  ∨ (top_opens w j = true ∧ (sub_opens w j = true ∨ submodules = []))
  ∨ (top_opens w j = true ∧ sub_opens w j = false
     ∧ ∃ x xs, submodules = x :: xs).
Proof.
  destruct (top_opens w j); [right|by left].
  destruct (sub_opens w j); [left; split; [done|by left]|].
  destruct submodules as [|x xs]; [left; split; [done|by right]|].
  right. split; [done|]. split; [done|]. by exists x, xs.
Qed.

End DumpCases.

Lemma file_writes_app (t1 t2 : list event) :
  file_writes (t1 ++ t2) = file_writes t1 ++ file_writes t2.
Proof. apply omap_app. Qed.

Lemma file_writes_dump_unit (j : job) (name printed : string) :
  file_writes (dump_unit j name printed)
  = [(dump_command j printed, output_path j name)].
Proof. unfold dump_unit, announce. by destruct (job_quiet j). Qed.

Lemma file_writes_announce (quiet : bool) (output_file : string) :
  file_writes (announce quiet output_file) = [].
Proof. unfold announce. by destruct quiet. Qed.

Lemma file_writes_collect_submodules (w : world) (cmd : list string)
  (module : string) :
  file_writes (collect_submodules w cmd module).1 = [].
Proof. rewrite collect_submodules_cases. simpl. by destruct (negb _). Qed.

(** The files a job writes when they can be opened, with the command whose
    output goes to each. *)
Lemma file_writes_dump_module_api (w : world) (j : job)
  (submodules : list string) :
  (collect_submodules w (job_cmd j) (job_module j)).2 = Ok submodules →
  top_opens w j = true → sub_opens w j = true ∨ submodules = [] →
  file_writes (dump_module_api w j).1 =
  (dump_command j (job_module j), output_path j (job_module j))
  :: ((λ submodule,
         (dump_command j (job_module j +:+ "." +:+ submodule),
          output_path j submodule)) <$> submodules).
Proof.
  intros Hsub Htop Hopen.
  rewrite (dump_module_api_cases w j submodules Hsub Htop Hopen).
  cbn [fst].
  rewrite file_writes_app, file_writes_collect_submodules.
  change ([make_directory j] ++ ?t) with (make_directory j :: t).
  change (file_writes (make_directory j :: ?t)) with (file_writes t).
  rewrite file_writes_app, file_writes_dump_unit. cbn [app]. f_equal.
  clear Hsub Hopen. induction submodules as [|x xs IH]; [done|].
  rewrite !fmap_cons. cbn [concat].
  by rewrite file_writes_app, file_writes_dump_unit, IH.
Qed.

Lemma file_writes_dump_module_api_fails (w : world) (j : job) :
  top_opens w j = false → file_writes (dump_module_api w j).1 = [].
Proof.
  intros Htop.
  destruct (collect_submodules_returns w (job_cmd j) (job_module j))
    as [submodules Hsub].
  rewrite (dump_module_api_fails w j submodules Hsub Htop). cbn [fst].
  rewrite file_writes_app, file_writes_collect_submodules.
  change ([make_directory j] ++ ?t) with (make_directory j :: t).
  change (file_writes (make_directory j :: ?t)) with (file_writes t).
  apply file_writes_announce.
Qed.

(** Whatever can be opened, the files a job writes are the first of those it
    is to write: the file of the module, then the files of the submodules. *)
Lemma file_writes_prefix (w : world) (j : job) (submodules : list string) :
  (collect_submodules w (job_cmd j) (job_module j)).2 = Ok submodules →
  file_writes (dump_module_api w j).1
  `prefix_of`
  (dump_command j (job_module j), output_path j (job_module j))
  :: ((λ submodule,
         (dump_command j (job_module j +:+ "." +:+ submodule),
          output_path j submodule)) <$> submodules).
Proof.
  intros Hsub.
  destruct (dump_module_api_split w j submodules Hsub)
    as [Htop|[[Htop Hopen]|(Htop & Hopen & x & xs & Hx)]].
  - rewrite (file_writes_dump_module_api_fails w j Htop). apply prefix_nil.
  - by rewrite (file_writes_dump_module_api w j submodules Hsub Htop Hopen).
  - rewrite (dump_module_api_fails_later w j submodules Hsub x xs Htop Hopen
               Hx). cbn [fst].
    rewrite file_writes_app, file_writes_collect_submodules.
    change ([make_directory j] ++ ?t) with (make_directory j :: t).
    change (file_writes (make_directory j :: ?t)) with (file_writes t).
    rewrite file_writes_app, file_writes_dump_unit, file_writes_announce.
    cbn [app]. apply prefix_cons, prefix_nil.
Qed.

(** A job whose output directory does not begin with [-] and whose module
    holds no [/] returns. *)
Lemma dump_module_api_returns (w : world) (j : job) :
  String.prefix "-" (job_output_dir j) = false →
  all_chars not_slash (job_module j) = true →
  (dump_module_api w j).2 = Ok ().
Proof.
  intros Hdash Hslash.
  destruct (collect_submodules_returns w (job_cmd j) (job_module j))
    as [submodules Hsub].
  rewrite (dump_module_api_cases w j submodules Hsub);
    [done | by apply top_opens_not_slash | left; by apply sub_opens_made].
Qed.

(** A file of a job is called after the module or after a submodule, and
    receives the dump of what it is called after. *)
Lemma file_writes_names (w : world) (j : job) (cmd : list string)
  (f : string) :
  (cmd, f) ∈ file_writes (dump_module_api w j).1 →
  ∃ name,
    f = output_path j name
    ∧ (name = job_module j ∧ cmd = dump_command j (job_module j)
       ∨ name ≠ "" ∧ all_chars Re.word_char name = true
         ∧ cmd = dump_command j (job_module j +:+ "." +:+ name)).
Proof.
  destruct (collect_submodules_returns w (job_cmd j) (job_module j))
    as [submodules Hsub].
  destruct (file_writes_prefix w j submodules Hsub) as [rest Hfull].
  destruct (collect_submodules_names w _ _ _ Hsub) as [_ Hnames].
  intros Hin.
  assert ((cmd, f)
          ∈ (dump_command j (job_module j), output_path j (job_module j))
            :: ((λ submodule,
                   (dump_command j (job_module j +:+ "." +:+ submodule),
                    output_path j submodule)) <$> submodules)) as Hin'.
  { rewrite Hfull. apply elem_of_app. by left. }
  apply elem_of_cons in Hin' as [Heq|Hin'].
  - injection Heq as -> ->. exists (job_module j). split; [done|]. by left.
  - apply list_elem_of_fmap in Hin' as (name & Heq & Hname).
    injection Heq as -> ->. exists name. split; [done|]. right.
    by destruct (Hnames name Hname).
Qed.

Lemma file_writes_paths (w : world) (j : job) (cmd : list string)
  (f : string) :
  (cmd, f) ∈ file_writes (dump_module_api w j).1 →
  ∃ name, f = output_path j name.
Proof.
  intros (name & Hname & _)%file_writes_names. by exists name.
Qed.

(** ** The four SDK families *)

Lemma pretty_sdk_name_cases (sdk : string) :
  pretty_sdk_name sdk =
  if String.prefix "macosx" sdk then "OSX"
  else if String.prefix "iphoneos" sdk then "iOS"
  else if String.prefix "watchos" sdk then "watchOS"
  else if String.prefix "appletvos" sdk then "tvOS"
  else "unknownOS".
Proof. unfold pretty_sdk_name. by rewrite !find_zero. Qed.

Lemma not_starts_with (p s : string) :
  ¬ starts_with p s ↔ String.prefix p s = false.
Proof.
  rewrite <- prefix_starts_with. by destruct (String.prefix p s).
Qed.

(** ** The jobs of one SDK *)

Section Jobs.

Variables (w : world) (cmd_common cmd_extra_args : list string).
Variables (sdk : string) (module target : option string).
Variables (source_file output_dir : string) (quiet : bool).

Local Abbreviation create :=
  (create_dump_module_api_args w cmd_common cmd_extra_args sdk module target
     source_file output_dir quiet).

Lemma create_jobs_inv (jobs : list job) :
  create.2 = Ok jobs →
  ∃ frameworks sdk_root sdk_target,
    (collect_frameworks w sdk).2 = Ok (Collected frameworks sdk_root)
    ∧ (sdk_target_of sdk target).2 = Ok sdk_target
    ∧ jobs =
      let job_of :=
        job_for cmd_common cmd_extra_args sdk sdk_root sdk_target
          output_dir quiet in
      if truthy module then [job_of (default "" module)]
      else job_of <$> frameworks.
Proof.
  rewrite create_outcome.
  destruct ((collect_frameworks w sdk).2) as [[|fw root]|e]; [done| |done].
  destruct ((sdk_target_of sdk target).2) as [t|e]; [|done].
  intros [= <-]. by exists fw, root, t.
Qed.

Lemma create_job_shape (jobs : list job) (j : job) :
  create.2 = Ok jobs → j ∈ jobs →
  ∃ sdk_root sdk_target,
    (sdk_target_of sdk target).2 = Ok sdk_target
    ∧ j = job_for cmd_common cmd_extra_args sdk sdk_root sdk_target
            output_dir quiet (job_module j).
Proof.
  intros (fw & root & t & _ & Ht & ->)%create_jobs_inv Hj.
  exists root, t. split; [done|]. cbv zeta in Hj.
  destruct (truthy module).
  - by apply list_elem_of_singleton in Hj as ->.
  - by apply list_elem_of_fmap in Hj as (m & -> & _).
Qed.

End Jobs.

Lemma output_path_job_for (cmd_common cmd_extra_args : list string)
  (sdk sdk_root sdk_target output_dir : string) (quiet : bool)
  (m name : string) :
  output_path
    (job_for cmd_common cmd_extra_args sdk sdk_root sdk_target output_dir
       quiet m) name
  = output_dir +:+ "/" +:+ pretty_sdk_name sdk +:+ "/" +:+ m +:+ "/"
    +:+ name +:+ ".swift".
Proof.
  unfold output_path, job_for. cbn [job_output_dir job_module].
  by rewrite !string_app_assoc.
Qed.

(** C9: an SDK name that begins with none of [macosx], [iphoneos],
    [watchos] and [appletvos] gets the label [unknownOS], and every file of
    every job built for it lies under [<output_dir>/unknownOS/].  This is the
    case of [iphonesimulator], although the table of default targets has an
    entry for it. *)
Theorem pretty_sdk_name_unknownOS (sdk : string) :
  ¬ starts_with "macosx" sdk → ¬ starts_with "iphoneos" sdk →
  ¬ starts_with "watchos" sdk → ¬ starts_with "appletvos" sdk →
  pretty_sdk_name sdk = "unknownOS"
  ∧ (∀ w cmd_common cmd_extra_args module target source_file output_dir
       quiet jobs j,
       (create_dump_module_api_args w cmd_common cmd_extra_args sdk module
          target source_file output_dir quiet).2 = Ok jobs →
       j ∈ jobs →
       job_output_dir j = output_dir +:+ "/unknownOS"
       ∧ ∀ cmd f, (cmd, f) ∈ file_writes (dump_module_api w j).1 →
                  starts_with (output_dir +:+ "/unknownOS/") f)
  ∧ ¬ starts_with "macosx" "iphonesimulator"
  ∧ ¬ starts_with "iphoneos" "iphonesimulator"
  ∧ ¬ starts_with "watchos" "iphonesimulator"
  ∧ ¬ starts_with "appletvos" "iphonesimulator"
  ∧ DEFAULT_TARGET_BASED_ON_SDK !! "iphonesimulator"
    = Some "x86_64-apple-ios9.0".
Proof.
  intros H1%not_starts_with H2%not_starts_with H3%not_starts_with
    H4%not_starts_with.
  assert (pretty_sdk_name sdk = "unknownOS") as Hpretty.
  { by rewrite pretty_sdk_name_cases, H1, H2, H3, H4. }
  split; [done|]. split.
  - intros w cc ce module target src out quiet jobs j Hjobs Hj.
    destruct (create_job_shape _ _ _ _ _ _ _ _ _ _ _ Hjobs Hj)
      as (root & t & _ & Hshape).
    split.
    + rewrite Hshape. cbn [job_for job_output_dir]. by rewrite Hpretty.
    + intros cmd f [name ->]%file_writes_paths.
      rewrite Hshape, output_path_job_for, Hpretty.
      exists (job_module j +:+ "/" +:+ name +:+ ".swift").
      by rewrite string_app_assoc.
  - repeat split; by try apply not_starts_with.
Qed.

Lemma pretty_sdk_name_unknownOS_witness :
  pretty_sdk_name "iphonesimulator" = "unknownOS".
Proof.
  apply (pretty_sdk_name_unknownOS "iphonesimulator");
    by apply not_starts_with.
Defined.

(** ** Target resolution *)

Lemma sdk_target_of_table (sdk : string) (target : option string)
  (t : string) :
  truthy target = false → DEFAULT_TARGET_BASED_ON_SDK !! sdk = Some t →
  sdk_target_of sdk target = ret t.
Proof. unfold sdk_target_of, subscript. by intros -> ->. Qed.

Lemma sdk_target_of_override (sdk t : string) :
  t ≠ "" → sdk_target_of sdk (Some t) = ret t.
Proof. unfold sdk_target_of. by destruct t. Qed.

(** C5: with no override (none given, or an empty one) the target of an SDK
    that has a default is its entry in the table; a non-empty override is the
    target whatever the table says.  The resolved target is the one every job
    of the SDK passes after [-target]. *)
Theorem resolved_target (sdk : string) (target : option string) (t : string) :
  truthy target = false ∧ DEFAULT_TARGET_BASED_ON_SDK !! sdk = Some t
  ∨ target = Some t ∧ t ≠ "" →
  sdk_target_of sdk target = ret t
  ∧ ∀ w cmd_common cmd_extra_args module source_file output_dir quiet jobs j,
      (create_dump_module_api_args w cmd_common cmd_extra_args sdk module
         target source_file output_dir quiet).2 = Ok jobs →
      j ∈ jobs →
      ∃ sdk_root,
        job_cmd j = cmd_common ++ ["-sdk"; sdk_root; "-target"; t].
Proof.
  intros Hcase.
  assert (sdk_target_of sdk target = ret t) as Ht.
  { destruct Hcase as [[Hnone Htable]|[-> Hne]].
    - by apply sdk_target_of_table.
    - by apply sdk_target_of_override. }
  split; [done|].
  intros w cc ce module src out quiet jobs j Hjobs Hj.
  destruct (create_job_shape _ _ _ _ _ _ _ _ _ _ _ Hjobs Hj)
    as (root & t' & Ht' & Hshape).
  rewrite Ht in Ht'. injection Ht' as <-.
  exists root. by rewrite Hshape.
Qed.

Lemma resolved_target_witness :
  sdk_target_of "iphoneos" None = ret "arm64-apple-ios9.0"
  ∧ sdk_target_of "iphoneos" (Some "armv7-apple-ios8.0")
    = ret "armv7-apple-ios8.0".
Proof.
  split.
  - apply (resolved_target "iphoneos" None "arm64-apple-ios9.0").
    left. split; reflexivity.
  - apply (resolved_target "iphoneos" (Some "armv7-apple-ios8.0")
             "armv7-apple-ios8.0").
    right. split; [reflexivity | discriminate].
Defined.

(** ** The files of a job *)

(** C7: when the submodule query of a job exits with a non-zero code, the
    name of the module holds no [/] and the output directory does not begin
    with [-], the job reports the failure, returns normally, and writes one
    file only, the dump of the module itself. *)
Theorem failed_submodule_query_one_file (w : world) (j : job) :
  (spawn w (submodules_query (job_cmd j) (job_module j))).1.1 ≠ 0 →
  all_chars not_slash (job_module j) = true →
  String.prefix "-" (job_output_dir j) = false →
  (dump_module_api w j).2 = Ok ()
  ∧ file_writes (dump_module_api w j).1
    = [(dump_command j (job_module j), output_path j (job_module j))]
  ∧ submodules_failed
      (spawn w (submodules_query (job_cmd j) (job_module j))).1.1
    ∈ (dump_module_api w j).1.
Proof.
  intros Hcode Hslash Hdash.
  pose proof (top_opens_not_slash w j Hdash Hslash) as Htop.
  pose proof (collect_submodules_cases w (job_cmd j) (job_module j)) as Hcs.
  cbv zeta in Hcs.
  destruct (Z.eqb_spec
              (spawn w (submodules_query (job_cmd j) (job_module j))).1.1 0)
    as [|_]; [done|]. cbn [negb] in Hcs.
  assert ((collect_submodules w (job_cmd j) (job_module j)).2 = Ok [])
    as Hsub by by rewrite Hcs.
  split; [by apply dump_module_api_returns|]. split.
  - by rewrite (file_writes_dump_module_api w j [] Hsub Htop
                  (or_intror eq_refl)).
  - rewrite (dump_module_api_cases w j [] Hsub Htop (or_intror eq_refl)).
    cbn [fst]. rewrite Hcs. cbn [fst]. set_solver.
Qed.

Lemma failed_submodule_query_one_file_witness :
  (spawn sample_world
     (submodules_query (job_cmd sample_job) (job_module sample_job))).1.1 ≠ 0
  ∧ all_chars not_slash (job_module sample_job) = true
  ∧ String.prefix "-" (job_output_dir sample_job) = false
  ∧ file_writes (dump_module_api sample_world sample_job).1
    = [(dump_command sample_job "AppKit", "out/OSX/AppKit/AppKit.swift")].
Proof.
  assert ((spawn sample_world
             (submodules_query (job_cmd sample_job)
                (job_module sample_job))).1.1 ≠ 0) as Hcode.
  { vm_compute. discriminate. }
  split; [exact Hcode|]. split; [reflexivity|]. split; [reflexivity|].
  apply (failed_submodule_query_one_file sample_world sample_job Hcode);
    reflexivity.
Defined.

(** C7, the case the claim leaves out: a job for the module [a/b] makes the
    directory [out/OSX/a/b] and then opens [out/OSX/a/b/a/b.swift], whose
    directory [out/OSX/a/b/a] nobody has made.  Its submodule query fails as
    the claim supposes, yet the job does not complete: it raises [IOError]
    and writes no file at all. *)
Lemma failed_submodule_query_slash_module :
  let j := job_for ["swift-ide-test"] ["-skip-imports"] "macosx"
             "/SDKs/macosx.sdk" "x86_64-apple-macosx10.11" "out" false "a/b" in
  (spawn sample_world (submodules_query (job_cmd j) (job_module j))).1.1 ≠ 0
  ∧ (dump_module_api sample_world j).2
    = Raise (IOError "out/OSX/a/b/a/b.swift")
  ∧ Call ["mkdir"; "-p"; "out/OSX/a/b"] ∈ (dump_module_api sample_world j).1
  ∧ file_writes (dump_module_api sample_world j).1 = [].
Proof.
  cbv zeta. split; [vm_compute; discriminate|].
  split; [vm_compute; reflexivity|].
  split; [|vm_compute; reflexivity].
  vm_compute. apply list_elem_of_In. simpl. tauto.
Qed.

(** ** Framework collection *)

(** C6, as the script has it: when both SDK queries succeed and the
    frameworks directory can be listed, framework collection returns, having
    printed nothing about any entry, a list that is sorted, has no
    duplicates, holds no deny-listed name and holds only names taken from
    entries that begin with [<name>.framework], whatever follows; an entry
    that does not begin so yields nothing. *)
Theorem collected_frameworks (w : world) (sdk : string)
  (listing : list string) :
  let q1 := spawn w (sdk_path_query sdk) in
  let q2 := spawn w (sdk_version_query sdk) in
  let root := rstrip q1.1.2 in
  q1.1.1 = 0 → q2.1.1 = 0 →
  entries w (frameworks_dir_of root) = Some listing →
  ∃ frameworks,
    collect_frameworks w sdk
    = ([Popen (sdk_path_query sdk); Popen (sdk_version_query sdk);
        collecting sdk (rstrip q2.1.2) root;
        ListDir (frameworks_dir_of root)],
       Ok (Collected frameworks root))
    ∧ StronglySorted String.le frameworks
    ∧ NoDup frameworks
    ∧ (∀ n, n ∈ frameworks →
            (n ∉ SKIPPED_FRAMEWORKS)
            ∧ ∃ entry, entry ∈ listing ∧ framework_entry entry n)
    ∧ (∀ n, n ∈ frameworks ↔
            (n ∉ SKIPPED_FRAMEWORKS)
            ∧ ∃ entry, entry ∈ listing
                ∧ Re.exec framework_matcher entry = Some n)
    ∧ (∀ entry, (∀ n, ¬ framework_entry entry n) →
                Re.exec framework_matcher entry = None)
    ∧ (∀ entry, entry ∈ listing → (∃ n, framework_entry entry n) →
                ∃ n', framework_entry entry n'
                      ∧ (n' ∈ frameworks ∨ n' ∈ SKIPPED_FRAMEWORKS)).
Proof.
  intros q1 q2 root H1 H2 Hlist.
  exists (sorted (frameworks_of listing)).
  split; [|split; [|split; [|split; [|split; [|split]]]]].
  - rewrite collect_frameworks_cases. cbv zeta. fold q1 q2 root.
    by rewrite H1, H2, Hlist.
  - apply sorted_StronglySorted.
  - apply sorted_NoDup.
  - intros n (Hn & entry & He & Hm)%sorted_elem_of%elem_of_frameworks_of.
    split; [done|]. exists entry. split; [done|].
    by apply framework_matcher_sound.
  - intros n. by rewrite sorted_elem_of, elem_of_frameworks_of.
  - intros entry Hnot.
    destruct (Re.exec framework_matcher entry) as [n|] eqn:Hm; [|done].
    by apply framework_matcher_sound, Hnot in Hm.
  - intros entry Hentry [n Hn].
    destruct (framework_matcher_complete entry n Hn) as [n' Hn'].
    exists n'. split; [by apply framework_matcher_sound|].
    destruct (decide (n' ∈ SKIPPED_FRAMEWORKS)) as [?|Hkeep]; [by right|].
    left. apply sorted_elem_of, elem_of_frameworks_of.
    split; [done|]. by exists entry.
Qed.

Lemma collected_frameworks_witness :
  ∃ frameworks,
    (collect_frameworks sample_world "macosx").2
    = Ok (Collected frameworks "/SDKs/macosx.sdk")
    ∧ StronglySorted String.le frameworks
    ∧ NoDup frameworks
    ∧ ∀ n, n ∈ frameworks → n ∉ SKIPPED_FRAMEWORKS.
Proof.
  destruct (collected_frameworks sample_world "macosx"
              ["System.framework"; "Foo.framework"; "README"])
    as (frameworks & Heq & Hsorted & Hnodup & Hin & _); [reflexivity..|].
  exists frameworks. split; [by rewrite Heq|]. split; [done|].
  split; [done|]. intros n Hn. by destruct (Hin n Hn).
Defined.

(** What stands after a prefix is what was appended to it. *)
Lemma substring_app (s t : string) :
  String.substring (String.length s) (String.length t) (s +:+ t) = t.
Proof.
  induction s as [|c s IH].
  - rewrite string_app_nil_l. cbn [String.length].
    induction t as [|c t IH]; [done|].
    cbn [String.length String.substring]. by rewrite IH.
  - rewrite string_app_cons. by cbn [String.length String.substring].
Qed.

(** C6, where the claim says too much: the pattern is tried at the start of
    the entry and not at its end, so that a name is taken from every entry
    that begins with [<name>.framework].  None of the three entries of this
    directory is a bundle [<name>.framework], and each yields a name. *)
Lemma stray_entries_are_collected :
  entries stray_world "/SDKs/macosx.sdk/System/Library/Frameworks"
  = Some ["Foo.framework.dSYM"; "README.framework.txt"; "Bar.frameworks"]
  ∧ (collect_frameworks stray_world "macosx").2
    = Ok (Collected ["Bar"; "Foo"; "README"] "/SDKs/macosx.sdk")
  ∧ ∀ entry name,
      entry ∈ ["Foo.framework.dSYM"; "README.framework.txt";
               "Bar.frameworks"] →
      ¬ bundle_entry entry name.
Proof.
  split; [reflexivity|]. split; [vm_compute; reflexivity|].
  intros entry name Hentry Heq. unfold bundle_entry in Heq.
  pose proof (substring_app name ".framework") as Hsub.
  rewrite <- Heq in Hsub.
  apply (f_equal String.length) in Heq. rewrite string_length_app in Heq.
  repeat (apply elem_of_cons in Hentry as [->|Hentry]);
    [| | |by apply elem_of_nil in Hentry];
    simpl in Heq;
    [replace (String.length name) with 8%nat in Hsub by lia
    |replace (String.length name) with 10%nat in Hsub by lia
    |replace (String.length name) with 4%nat in Hsub by lia];
    vm_compute in Hsub; discriminate Hsub.
Qed.

(** ** Submodule collection *)

(** The lines of [splitlines] hold no line break. *)
Lemma rev_app_all_chars (P : ascii → bool) (s t : string) :
  all_chars P (String.rev_app s t) = all_chars P s && all_chars P t.
Proof.
  revert t. induction s as [|c s IH]; intros t; [done|].
  simpl. rewrite IH. simpl. by destruct (P c), (all_chars P s).
Qed.

Lemma splitlines_go_lines (cr : bool) (cur s line : string) :
  all_chars not_linebreak cur = true →
  line ∈ splitlines_go cr cur s → all_chars not_linebreak line = true.
Proof.
  revert cr cur. induction s as [|c s IH]; intros cr cur Hcur; simpl.
  - destruct (is_empty cur); [by intros ?%elem_of_nil|].
    intros ->%list_elem_of_singleton. unfold String.rev.
    by rewrite rev_app_all_chars, Hcur.
  - assert (all_chars not_linebreak (String.rev cur) = true) as Hrev.
    { unfold String.rev. by rewrite rev_app_all_chars, Hcur. }
    destruct (Ascii.eqb c "010") eqn:Hlf.
    + destruct cr; [by apply IH|].
      intros [->|?]%elem_of_cons; [done|]. by apply (IH false "").
    + destruct (Ascii.eqb c "013") eqn:Hcr.
      * intros [->|?]%elem_of_cons; [done|]. by apply (IH true "").
      * apply IH. simpl. unfold not_linebreak at 1. by rewrite Hlf, Hcr.
Qed.

Lemma splitlines_lines (s line : string) :
  line ∈ splitlines s → all_chars not_linebreak line = true.
Proof. by apply splitlines_go_lines. Qed.

Lemma not_linebreak_any (s : string) :
  all_chars not_linebreak s = true → all_chars (Re.mem Re.Any) s = true.
Proof.
  induction s as [|c s IH]; [done|]. simpl.
  intros [[Hc _]%andb_true_iff Hs]%andb_true_iff. by rewrite Hc, IH.
Qed.

(** A line of the output that imports a submodule is matched. *)
Lemma import_matcher_complete (module line sub : string) :
  all_chars not_linebreak line = true →
  import_line module line sub →
  is_Some (Re.exec (import_matcher module) line).
Proof.
  intros Hline (pre & ws & m & rest & -> & Hws & Hspace & Hm & Hne & Hword
                & _).
  rewrite all_chars_app in Hline. apply andb_true_iff in Hline as [Hpre _].
  change (import_matcher module) with
    (Re.Star Re.Any
     :: (Re.lits "import"
         ++ Re.Plus Re.Space
            :: (Re.interpolated module
                ++ [Re.One (Re.Lit "."); Re.Group Re.Word]))).
  change (Re.exec (Re.Star Re.Any :: ?p) ?l)
    with (Re.greedy Re.Any (Re.exec p) l).
  apply ReFacts.greedy_complete; [by apply not_linebreak_any|].
  assert (is_Some (Re.exec [Re.One (Re.Lit "."); Re.Group Re.Word]
                     ("." +:+ sub +:+ rest))) as [g Hg].
  { destruct (ReFacts.exec_group_complete Re.Word [] sub rest Hne Hword)
      as [g Hg]; [by eexists|].
    exists g. apply ReFacts.exec_one. by exists "."%char, (sub +:+ rest). }
  assert (is_Some (Re.exec (Re.Plus Re.Space
                            :: (Re.interpolated module
                                ++ [Re.One (Re.Lit "."); Re.Group Re.Word]))
                     (ws +:+ m +:+ "." +:+ sub +:+ rest))) as [g' Hg'].
  { apply ReFacts.exec_plus_complete; [done..|].
    rewrite ReFacts.exec_interpolated_complete by done. by exists g. }
  exists g'. apply ReFacts.exec_lits. by eexists.
Qed.

(** C4, as the script has it: when the submodule query succeeds (for a module
    name within the embedded fragment of the pattern language), the result is
    sorted and free of duplicates, and every name in it is the name imported
    by some line of the output, where the import may stand anywhere in the
    line; a line that imports nothing of the module contributes nothing, and a
    line that imports something contributes a name it imports. *)
Theorem collected_submodules (w : world) (cmd : list string)
  (module : string) :
  let q := spawn w (submodules_query cmd module) in
  q.1.1 = 0 → Re.plain module = true →
  ∃ submodules,
    collect_submodules w cmd module
    = ([Popen (submodules_query cmd module)], Ok submodules)
    ∧ StronglySorted String.le submodules
    ∧ NoDup submodules
    ∧ (∀ n, n ∈ submodules →
            ∃ line, line ∈ splitlines q.1.2 ∧ import_line module line n)
    ∧ (∀ n, n ∈ submodules ↔
            ∃ line, line ∈ splitlines q.1.2
              ∧ Re.exec (import_matcher module) line = Some n)
    ∧ (∀ line, (∀ n, ¬ import_line module line n) →
               Re.exec (import_matcher module) line = None)
    ∧ (∀ line, line ∈ splitlines q.1.2 →
               (∃ n, import_line module line n) →
               ∃ n', n' ∈ submodules ∧ import_line module line n').
Proof.
  intros q Hcode _.
  exists (sorted (submodules_of module (splitlines q.1.2))).
  split; [|split; [|split; [|split; [|split; [|split]]]]].
  - rewrite collect_submodules_cases. cbv zeta. fold q. by rewrite Hcode.
  - apply sorted_StronglySorted.
  - apply sorted_NoDup.
  - intros n (line & Hl & Hm)%sorted_elem_of%elem_of_submodules_of.
    exists line. split; [done|]. by apply import_matcher_sound.
  - intros n. by rewrite sorted_elem_of, elem_of_submodules_of.
  - intros line Hnot.
    destruct (Re.exec (import_matcher module) line) as [n|] eqn:Hm; [|done].
    by apply import_matcher_sound, Hnot in Hm.
  - intros line Hline [n Hn].
    destruct (import_matcher_complete module line n) as [n' Hn'];
      [by apply splitlines_lines in Hline|done|].
    exists n'. split; [|by apply import_matcher_sound].
    apply sorted_elem_of, elem_of_submodules_of. by exists line.
Qed.

Lemma collected_submodules_witness :
  ∃ submodules,
    (collect_submodules sample_world ["swift-ide-test"] "Foo").2
    = Ok submodules
    ∧ NoDup submodules
    ∧ ("Bar" ∈ submodules ∧ "Baz.Qux" ∈ submodules).
Proof.
  destruct (collected_submodules sample_world ["swift-ide-test"] "Foo")
    as (submodules & Heq & _ & Hnodup & _ & Hin & _); [reflexivity..|].
  exists submodules. split; [by rewrite Heq|]. split; [done|].
  split; apply Hin.
  - exists "@exported import Foo.Bar". split; [|reflexivity].
    vm_compute. apply list_elem_of_In. simpl. tauto.
  - exists "import Foo.Baz.Qux". split; [|reflexivity].
    vm_compute. apply list_elem_of_In. simpl. tauto.
Defined.

(** C4, as stated, fails: a line whose import does not stand at its start
    contributes a name all the same. *)
Lemma unanchored_import_contributes :
  collect_submodules attributed_world ["swift-ide-test"] "Foo"
  = ([Popen ["swift-ide-test"; "-module-print-submodules";
             "-module-to-print=Foo"]], Ok ["Bar"])
  ∧ splitlines (spawn attributed_world
                  ["swift-ide-test"; "-module-print-submodules";
                   "-module-to-print=Foo"]).1.2
    = ["@exported import Foo.Bar"]
  ∧ ∀ n, ¬ anchored_import_line "Foo" "@exported import Foo.Bar" n.
Proof.
  split; [vm_compute; reflexivity|]. split; [vm_compute; reflexivity|].
  intros n (ws & rest & Heq & _). discriminate Heq.
Qed.

(** ** Output paths *)

Lemma collect_frameworks_inv (w : world) (sdk : string)
  (frameworks : list string) (sdk_root : string) :
  (collect_frameworks w sdk).2 = Ok (Collected frameworks sdk_root) →
  ∃ listing,
    entries w (frameworks_dir_of sdk_root) = Some listing
    ∧ frameworks = sorted (frameworks_of listing)
    ∧ sdk_root = rstrip (spawn w (sdk_path_query sdk)).1.2
    ∧ (spawn w (sdk_path_query sdk)).1.1 = 0
    ∧ (spawn w (sdk_version_query sdk)).1.1 = 0.
Proof.
  rewrite collect_frameworks_cases. cbv zeta.
  destruct (Z.eqb_spec (spawn w (sdk_path_query sdk)).1.1 0) as [H1|];
    [|done].
  destruct (Z.eqb_spec (spawn w (sdk_version_query sdk)).1.1 0) as [H2|];
    [|done].
  cbn [negb].
  destruct (entries w _) as [listing|] eqn:Hl; [|done].
  intros [= <- <-]. by exists listing.
Qed.

Lemma word_char_plain (c : ascii) :
  Re.word_char c = true → (Ascii.eqb c "." || negb (Re.special c)) = true.
Proof.
  destruct c as [[] [] [] [] [] [] [] []]; vm_compute; done.
Qed.

(** A name over [[A-Za-z_0-9.]] has no special character but the dot. *)
Lemma word_plain (n : string) :
  all_chars Re.word_char n = true → Re.plain n = true.
Proof.
  induction n as [|c n IH]; [done|]. simpl.
  intros [Hc Hn]%andb_true_iff. by rewrite (word_char_plain c Hc), IH.
Qed.

Lemma discovered_names_plain (w : world) (sdk : string)
  (frameworks : list string) (sdk_root n : string) :
  (collect_frameworks w sdk).2 = Ok (Collected frameworks sdk_root) →
  n ∈ frameworks → Re.plain n = true.
Proof.
  intros (listing & _ & -> & _)%collect_frameworks_inv.
  intros (_ & entry & _ & Hm)%sorted_elem_of%elem_of_frameworks_of.
  apply framework_matcher_sound in Hm as (_ & Hword & _).
  by apply word_plain.
Qed.

(** The module of a job is the explicit one, or a discovered name, which is
    a word over [[A-Za-z_0-9.]]. *)
Lemma create_job_module_cases (w : world)
  (cmd_common cmd_extra_args : list string) (sdk : string)
  (module target : option string) (source_file output_dir : string)
  (quiet : bool) (jobs : list job) (j : job) :
  (create_dump_module_api_args w cmd_common cmd_extra_args sdk module target
     source_file output_dir quiet).2 = Ok jobs →
  j ∈ jobs →
  (∃ m, module = Some m ∧ is_empty m = false ∧ job_module j = m)
  ∨ (truthy module = false
     ∧ job_module j ≠ ""
     ∧ all_chars Re.word_char (job_module j) = true
     ∧ ∃ frameworks sdk_root,
         (collect_frameworks w sdk).2 = Ok (Collected frameworks sdk_root)
         ∧ job_module j ∈ frameworks).
Proof.
  intros (fw & root & t & Hcf & _ & ->)%create_jobs_inv Hj.
  cbv zeta in Hj. destruct (truthy module) eqn:Hmod.
  - left. apply list_elem_of_singleton in Hj as ->.
    destruct module as [m|]; [|done]. exists m. cbn in Hmod |- *.
    by destruct (is_empty m).
  - right. apply list_elem_of_fmap in Hj as (m & -> & Hm).
    cbn [job_for job_module].
    pose proof Hcf as (listing & _ & Hfw & _)%collect_frameworks_inv.
    pose proof Hm as Hm'. rewrite Hfw in Hm'.
    apply sorted_elem_of, elem_of_frameworks_of in Hm'
      as (_ & entry & _ & Hentry).
    apply framework_matcher_sound in Hentry as (Hne & Hword & _).
    split; [done|]. split; [done|]. split; [done|]. by exists fw, root.
Qed.


(** C8: a job built for SDK [S] and an output directory that does not begin
    with [-], whose module [M] was discovered, or was given explicitly with
    no [/] in it (and within the embedded fragment of the import pattern),
    returns normally; its top-level dump goes to
    [<output_dir>/<pretty_sdk_name(S)>/M/M.swift], the dump of each
    discovered submodule [N] to [<output_dir>/<pretty_sdk_name(S)>/M/N.swift],
    and these are all the files of the job; for [macosx] and [Foo] the first
    is [<output_dir>/OSX/Foo/Foo.swift]. *)
Theorem output_file_paths (w : world) (cmd_common cmd_extra_args : list string)
  (sdk : string) (module target : option string)
  (source_file output_dir : string) (quiet : bool) (jobs : list job)
  (j : job) :
  (create_dump_module_api_args w cmd_common cmd_extra_args sdk module target
     source_file output_dir quiet).2 = Ok jobs →
  j ∈ jobs →
  (∀ m, module = Some m →
        Re.plain m = true ∧ all_chars not_slash m = true) →
  String.prefix "-" output_dir = false →
  let M := job_module j in
  let path name :=
    output_dir +:+ "/" +:+ pretty_sdk_name sdk +:+ "/" +:+ M +:+ "/"
    +:+ name +:+ ".swift" in
  Re.plain M = true
  ∧ all_chars not_slash M = true
  ∧ (dump_module_api w j).2 = Ok ()
  ∧ (∃ submodules,
       (collect_submodules w (job_cmd j) M).2 = Ok submodules
       ∧ file_writes (dump_module_api w j).1
         = (dump_command j M, path M)
           :: ((λ N, (dump_command j (M +:+ "." +:+ N), path N))
                 <$> submodules))
  ∧ (sdk = "macosx" → M = "Foo" →
     head (file_writes (dump_module_api w j).1).*2
     = Some (output_dir +:+ "/OSX/Foo/Foo.swift")).
Proof.
  intros Hjobs Hj Hproper Hdash M path.
  destruct (create_job_shape _ _ _ _ _ _ _ _ _ _ _ Hjobs Hj)
    as (root & t & _ & Hshape).
  destruct (collect_submodules_returns w (job_cmd j) M)
    as [submodules Hsub].
  assert (String.prefix "-" (job_output_dir j) = false) as Hdir.
  { rewrite Hshape. cbn [job_for job_output_dir].
    by rewrite prefix_dash_below. }
  assert (Re.plain M = true ∧ all_chars not_slash M = true)
    as [Hplain Hslash].
  { destruct (create_job_module_cases _ _ _ _ _ _ _ _ _ _ _ Hjobs Hj)
      as [(m & -> & _ & Hm)|(_ & _ & Hword & _)].
    - unfold M. rewrite Hm. by apply Hproper.
    - split; [by apply word_plain | by apply word_not_slash]. }
  pose proof (top_opens_not_slash w j Hdir Hslash) as Htop.
  pose proof (sub_opens_made w j Hdir) as Hopen.
  assert (file_writes (dump_module_api w j).1
          = (dump_command j M, path M)
            :: ((λ N, (dump_command j (M +:+ "." +:+ N), path N))
                  <$> submodules)) as Hfiles.
  { rewrite (file_writes_dump_module_api w j submodules Hsub Htop
               (or_introl Hopen)).
    fold M. unfold path.
    rewrite Hshape at 2. rewrite output_path_job_for. fold M. f_equal.
    apply list_fmap_ext. intros _ N _. f_equal.
    rewrite Hshape. by rewrite output_path_job_for. }
  split; [done|]. split; [done|].
  split; [by apply dump_module_api_returns|]. split.
  - by exists submodules.
  - intros -> HM. rewrite Hfiles. unfold path. rewrite HM. simpl.
    by rewrite pretty_sdk_name_cases.
Qed.

Lemma output_file_paths_witness :
  head (file_writes
          (dump_module_api sample_world
             (job_for ["swift-ide-test"] ["-skip-imports"] "macosx"
                "/SDKs/macosx.sdk" "x86_64-apple-macosx10.11" "out" false
                "Foo")).1).*2
  = Some "out/OSX/Foo/Foo.swift".
Proof.
  eapply (output_file_paths sample_world ["swift-ide-test"]
            ["-skip-imports"] "macosx" None None "omit-needless-words.swift"
            "out" false).
  - vm_compute. reflexivity.
  - apply list_elem_of_singleton. reflexivity.
  - intros m Hm. discriminate Hm.
  - reflexivity.
  - reflexivity.
  - reflexivity.
Defined.

(** C8, the case the claim leaves out: the one job of [-s macosx -m a/b].
    Its submodule query succeeds and discovers the submodule [Sub], so the
    claim places two files, [out/OSX/a/b/a/b.swift] and
    [out/OSX/a/b/Sub.swift]; the job raises when it opens the first, whose
    directory [out/OSX/a/b/a] it has not made, and writes neither. *)
Lemma slash_module_writes_nothing :
  ∃ j,
    (create_dump_module_api_args slash_world ["swift-ide-test"]
       ["-skip-imports"] "macosx" (Some "a/b") None
       "omit-needless-words.swift" "out" false).2 = Ok [j]
    ∧ job_module j = "a/b"
    ∧ Re.plain (job_module j) = true
    ∧ (collect_submodules slash_world (job_cmd j) (job_module j)).2
      = Ok ["Sub"]
    ∧ (dump_module_api slash_world j).2
      = Raise (IOError "out/OSX/a/b/a/b.swift")
    ∧ file_writes (dump_module_api slash_world j).1 = [].
Proof.
  eexists. split; [vm_compute; reflexivity|].
  repeat split; vm_compute; reflexivity.
Qed.

(** ** The loop over the SDKs *)

Section Construction.

Variables (w : world) (cmd_common extra_args : list string).
Variables (args : arguments) (source_file : string).

Local Abbreviation create sdk :=
  (create_dump_module_api_args w cmd_common extra_args sdk
     (args_module args) (args_target args) source_file
     (args_output_dir args) (args_quiet args)).

Local Abbreviation construct sdks jobs :=
  (construct_jobs w cmd_common extra_args args source_file sdks jobs).

(** One SDK whose job construction raises makes the whole loop raise. *)
Lemma construct_jobs_raises (sdks : list string) (jobs : list job)
  (sdk : string) (e : exn) :
  sdk ∈ sdks → (create sdk).2 = Raise e →
  ∃ e', (construct sdks jobs).2 = Raise e'.
Proof.
  revert jobs. induction sdks as [|s sdks IH]; intros jobs Hin Hraise.
  - by apply elem_of_nil in Hin.
  - cbn [construct_jobs]. rewrite bind_outcome.
    destruct ((create s).2) as [more|e0] eqn:Hs; [|by exists e0].
    apply elem_of_cons in Hin as [->|Hin]; [congruence|].
    by apply IH.
Qed.

(** The jobs the loop returns are those it started with and those of the
    SDKs, each built by [create_dump_module_api_args]. *)
Lemma construct_jobs_origin (sdks : list string) (jobs result : list job)
  (j : job) :
  (construct sdks jobs).2 = Ok result → j ∈ result →
  j ∈ jobs ∨ ∃ sdk more, sdk ∈ sdks ∧ (create sdk).2 = Ok more ∧ j ∈ more.
Proof.
  revert jobs. induction sdks as [|s sdks IH]; intros jobs.
  - intros [= <-] Hj. by left.
  - cbn [construct_jobs]. rewrite bind_outcome.
    destruct ((create s).2) as [more|e0] eqn:Hs; [|done].
    intros Hres Hj.
    destruct (IH _ Hres Hj) as [[?|?]%elem_of_app|(sdk & more' & ? & ? & ?)].
    + by left.
    + right. exists s, more. split; [by left|done].
    + right. exists sdk, more'. split; [by right|done].
Qed.


(** The loop stops at the first SDK whose job construction raises: the
    SDKs before it have been queried, those after it are not. *)
Lemma construct_jobs_first_failure (before after : list string)
  (sdk : string) (e : exn) (jobs : list job) :
  (∀ s, s ∈ before → ∃ more, (create s).2 = Ok more) →
  (create sdk).2 = Raise e →
  construct (before ++ sdk :: after) jobs
  = (concat ((λ s, (collect_frameworks w s).1) <$> before ++ [sdk]),
     Raise e).
Proof.
  intros Hbefore Hsdk. revert jobs.
  induction before as [|s before IH]; intros jobs.
  - cbn [app construct_jobs fmap list_fmap concat].
    apply injective_projections; cbn [fst snd].
    + by rewrite bind_events, Hsdk, create_events, !app_nil_r.
    + by rewrite bind_outcome, Hsdk.
  - destruct (Hbefore s) as [more Hs]; [by left|].
    rewrite <- !app_comm_cons, fmap_cons. cbn [construct_jobs concat].
    apply injective_projections; cbn [fst snd].
    + rewrite bind_events, Hs, create_events, IH; [done|].
      intros s' Hs'. apply Hbefore. by right.
    + rewrite bind_outcome, Hs, IH; [done|].
      intros s' Hs'. apply Hbefore. by right.
Qed.


(** Either job construction returns for every SDK of the list, or there is
    a first one for which it raises. *)
Lemma construct_jobs_split (sdks : list string) :
  (∃ built, Forall2 (λ s more, (create s).2 = Ok more) sdks built)
  ∨ (∃ before sdk after e,
       sdks = before ++ sdk :: after
       ∧ (∀ s, s ∈ before → ∃ more, (create s).2 = Ok more)
       ∧ (create sdk).2 = Raise e).
Proof.
  induction sdks as [|s sdks IH]; [left; exists []; constructor|].
  destruct ((create s).2) as [more|e] eqn:Hs.
  - destruct IH as [[built Hall]|(before & sdk & after & e & -> & Hb & He)].
    + left. exists (more :: built). by constructor.
    + right. exists (s :: before), sdk, after, e. split; [done|].
      split; [|done].
      intros s' [->|Hs']%elem_of_cons; [by exists more | by apply Hb].
  - right. exists [], s, sdks, e. split; [done|]. split; [|done].
    by intros s' ?%elem_of_nil.
Qed.

End Construction.

(** ** [main] *)



(** The three ways a run can go. *)
Lemma main_cases (w : world) (args : arguments) :
  let construction :=
    construct_jobs w (cmd_common_of args) (extra_args_of args) args
      source_filename (args_sdk args) [] in
  main w args =
  match construction.2 with
  | Raise e => Aborted (scratch_touch :: construction.1) e
  | Ok jobs =>
      if pool_ok (args_jobs args) then
        Dispatched (scratch_touch :: construction.1)
          (dump_module_api w <$> jobs)
          (if forallb returned (dump_module_api w <$> jobs)
           then [scratch_remove] else [])
      else Aborted (scratch_touch :: construction.1) ValueError
  end.
Proof.
  intros construction. unfold main. cbv zeta.
  rewrite bind_events, bind_outcome. cbn [emit fst snd].
  fold construction.
  by destruct (construction.2) as [jobs|e].
Qed.

Lemma collect_frameworks_queries (w : world) (sdk : string) (ev : event) :
  ev ∈ (collect_frameworks w sdk).1 → is_query ev.
Proof.
  rewrite collect_frameworks_cases. cbv zeta.
  assert (is_query (Popen (sdk_path_query sdk))) as Hq1.
  { split; [done|]. intros ? [= <-]. exists sdk. by left. }
  assert (is_query (Popen (sdk_version_query sdk))) as Hq2.
  { split; [done|]. intros ? [= <-]. exists sdk. by right. }
  assert (∀ line, is_query (Print line)) as Hprint by by split.
  assert (∀ path, is_query (ListDir path)) as Hlist by by split.
  destruct (negb _); [|destruct (negb _); [|destruct (entries w _)]];
    cbn [fst]; rewrite !elem_of_cons;
    intros Hev; repeat destruct Hev as [->|Hev]; try done;
    by apply elem_of_nil in Hev.
Qed.

(** ** Failures during job construction *)

Lemma subscript_missing (sdk : string) (target : option string) :
  truthy target = false → DEFAULT_TARGET_BASED_ON_SDK !! sdk = None →
  sdk_target_of sdk target = raise (KeyError sdk).
Proof. unfold sdk_target_of, subscript. by intros -> ->. Qed.

(** Job construction for an SDK without default target and without override
    never returns. *)
Lemma create_unmapped_raises (w : world)
  (cmd_common cmd_extra_args : list string) (sdk : string)
  (module target : option string) (source_file output_dir : string)
  (quiet : bool) :
  truthy target = false → DEFAULT_TARGET_BASED_ON_SDK !! sdk = None →
  ∃ e,
    (create_dump_module_api_args w cmd_common cmd_extra_args sdk module
       target source_file output_dir quiet).2 = Raise e
    ∧ ∀ frameworks sdk_root,
        (collect_frameworks w sdk).2 = Ok (Collected frameworks sdk_root) →
        e = KeyError sdk.
Proof.
  intros Hnone Hmiss. rewrite create_outcome.
  rewrite (subscript_missing sdk target Hnone Hmiss).
  destruct ((collect_frameworks w sdk).2) as [[|fw root]|e]; cbn [raise snd].
  - by exists ValueError.
  - by exists (KeyError sdk).
  - by exists e.
Qed.

Lemma scratch_remove_not_query : ¬ is_query scratch_remove.
Proof. intros [Hmod _]. discriminate Hmod. Qed.

(** C1, as the script has it: for an SDK without entry in the table and
    without override, job construction raises (the lookup error once framework
    collection has succeeded) and nothing catches it.  The run stops at the
    first SDK of the list whose job construction raises, which is this SDK or
    one before it, and with its exception: the SDKs up to that one have been
    queried, in order, the SDKs after it are not looked at, the pool is not
    started, so that no job of any requested SDK is dispatched, and the
    scratch file is not removed. *)
Theorem unmapped_sdk_aborts_run (w : world) (args : arguments)
  (sdk : string) :
  sdk ∈ args_sdk args →
  DEFAULT_TARGET_BASED_ON_SDK !! sdk = None →
  truthy (args_target args) = false →
  let create s :=
    create_dump_module_api_args w (cmd_common_of args) (extra_args_of args)
      s (args_module args) (args_target args) source_filename
      (args_output_dir args) (args_quiet args) in
  (∃ e,
     (create sdk).2 = Raise e
     ∧ ∀ frameworks sdk_root,
         (collect_frameworks w sdk).2 = Ok (Collected frameworks sdk_root) →
         e = KeyError sdk)
  ∧ ∃ before s after events e,
      args_sdk args = before ++ s :: after
      ∧ (∀ s', s' ∈ before → ∃ more, (create s').2 = Ok more)
      ∧ (create s).2 = Raise e
      ∧ (s = sdk ∨ sdk ∈ after)
      ∧ events
        = concat ((λ s', (collect_frameworks w s').1) <$> before ++ [s])
      ∧ main w args = Aborted (scratch_touch :: events) e
      ∧ Forall is_query events
      ∧ scratch_remove ∉ events.
Proof.
  intros Hin Hmiss Hnone create.
  destruct (create_unmapped_raises w (cmd_common_of args)
              (extra_args_of args) sdk (args_module args) (args_target args)
              source_filename (args_output_dir args) (args_quiet args)
              Hnone Hmiss) as (e & Hraise & Hkey).
  split; [by exists e|].
  destruct (construct_jobs_split w (cmd_common_of args) (extra_args_of args)
              args source_filename (args_sdk args))
    as [[built Hall]|(before & s & after & e' & Hsplit & Hbefore & He')].
  { apply list_elem_of_lookup in Hin as [i Hi].
    destruct (Forall2_lookup_l _ _ _ _ _ Hall Hi) as (more & _ & Hok).
    congruence. }
  pose proof (construct_jobs_first_failure w (cmd_common_of args)
                (extra_args_of args) args source_filename before after s e'
                [] Hbefore He') as Hloop.
  rewrite <- Hsplit in Hloop.
  pose proof (main_cases w args) as Hmain. cbv zeta in Hmain.
  rewrite Hloop in Hmain. cbn [fst snd] in Hmain.
  assert (Forall is_query
            (concat ((λ s', (collect_frameworks w s').1) <$> before ++ [s])))
    as Hq.
  { apply Forall_concat, Forall_fmap, Forall_forall. intros s' _.
    apply Forall_forall. intros ev. apply collect_frameworks_queries. }
  eexists before, s, after, _, e'.
  split; [done|]. split; [done|]. split; [done|]. split.
  { rewrite Hsplit in Hin.
    apply elem_of_app in Hin as [Hin|Hin].
    - destruct (Hbefore sdk Hin) as [more Hok]. fold (create sdk) in Hok.
      unfold create in Hok. congruence.
    - apply elem_of_cons in Hin as [->|Hin]; [by left | by right]. }
  split; [reflexivity|]. split; [done|]. split; [done|].
  intros Hrm. apply scratch_remove_not_query.
  by apply (proj1 (Forall_forall _ _) Hq).
Qed.

Lemma unmapped_sdk_aborts_run_witness :
  ∃ events e,
    main sample_world (sample_arguments ["macosx"; "bogus"; "iphoneos"] None)
    = Aborted (scratch_touch :: events) e
    ∧ events
      = concat ((λ s, (collect_frameworks sample_world s).1)
                  <$> ["macosx"; "bogus"])
    ∧ scratch_remove ∉ events.
Proof.
  destruct (unmapped_sdk_aborts_run sample_world
              (sample_arguments ["macosx"; "bogus"; "iphoneos"] None) "bogus")
    as (_ & before & s & after & events & e & Hsplit & Hbefore & Hs & _
        & Hevents & Hmain & _ & Hrm).
  - apply list_elem_of_In. simpl. tauto.
  - reflexivity.
  - reflexivity.
  - exists events, e. split; [exact Hmain|]. split; [|exact Hrm].
    destruct before as [|s1 before].
    { injection Hsplit as <- _. vm_compute in Hs. discriminate Hs. }
    injection Hsplit as <- Hsplit.
    destruct before as [|s2 before].
    { injection Hsplit as <- _. exact Hevents. }
    injection Hsplit as <- Hsplit.
    destruct (Hbefore "bogus") as [more Hok].
    { apply list_elem_of_In. simpl. tauto. }
    vm_compute in Hok. discriminate Hok.
Defined.

(** C1, as stated, fails: with [bogus] first in the list, [macosx] is never
    looked at and the run ends in the lookup error, whereas [macosx] alone
    gives one job. *)
Lemma unmapped_sdk_stops_other_sdks :
  main sample_world (sample_arguments ["bogus"; "macosx"] None)
  = Aborted
      [Call ["touch"; "omit-needless-words.swift"];
       Popen ["xcrun"; "--show-sdk-path"; "-sdk"; "bogus"];
       Popen ["xcrun"; "--show-sdk-version"; "-sdk"; "bogus"];
       Print "Collecting frameworks from unknownOS 10.11 at /SDKs/bogus.sdk";
       ListDir "/SDKs/bogus.sdk/System/Library/Frameworks"]
      (KeyError "bogus")
  ∧ ∃ events worker after,
      main sample_world (sample_arguments ["macosx"] None)
      = Dispatched events [worker] after.
Proof.
  split; [vm_compute; reflexivity|].
  vm_compute. by eexists _, _, _.
Qed.

(** C2: the run in which [xcrun --show-sdk-path] fails for the first SDK.
    Framework collection reports the failure and returns the empty tuple; the
    caller's assignment to a pair then raises, and the run ends there: the
    second SDK is never looked at and no job is dispatched. *)
Theorem failed_sdk_query_aborts_run :
  collect_frameworks broken_world "macosx"
  = ([Popen ["xcrun"; "--show-sdk-path"; "-sdk"; "macosx"];
      Print "error: framework collection failed with error 1"],
     Ok EmptyTuple)
  ∧ main broken_world (sample_arguments ["macosx"; "iphoneos"] None)
    = Aborted
        [Call ["touch"; "omit-needless-words.swift"];
         Popen ["xcrun"; "--show-sdk-path"; "-sdk"; "macosx"];
         Print "error: framework collection failed with error 1"]
        ValueError.
Proof. split; vm_compute; reflexivity. Qed.

(** Whatever the world, a failed SDK query makes job construction raise. *)
Lemma failed_sdk_query_raises (w : world)
  (cmd_common cmd_extra_args : list string) (sdk : string)
  (module target : option string) (source_file output_dir : string)
  (quiet : bool) :
  (spawn w (sdk_path_query sdk)).1.1 ≠ 0
  ∨ (spawn w (sdk_version_query sdk)).1.1 ≠ 0 →
  (create_dump_module_api_args w cmd_common cmd_extra_args sdk module target
     source_file output_dir quiet).2 = Raise ValueError.
Proof.
  intros Hfail. rewrite create_outcome, collect_frameworks_cases. cbv zeta.
  destruct (Z.eqb_spec (spawn w (sdk_path_query sdk)).1.1 0) as [H1|];
    [|done].
  destruct (Z.eqb_spec (spawn w (sdk_version_query sdk)).1.1 0) as [H2|];
    [|done].
  by destruct Hfail.
Qed.

(** ** An explicit module *)

(** C3, as the script has it: with an explicit module name, framework
    collection runs all the same (its SDK root is needed for the command
    line): job construction issues exactly its events, the first of which is
    the SDK path query.  When collection and target lookup succeed the result
    is the single job for that module. *)
Theorem explicit_module_single_job (w : world)
  (cmd_common cmd_extra_args : list string) (sdk m : string)
  (target : option string) (source_file output_dir : string) (quiet : bool) :
  m ≠ "" →
  let created :=
    create_dump_module_api_args w cmd_common cmd_extra_args sdk (Some m)
      target source_file output_dir quiet in
  created.1 = (collect_frameworks w sdk).1
  ∧ (∃ rest, created.1 = Popen (sdk_path_query sdk) :: rest)
  ∧ (∀ frameworks sdk_root sdk_target,
       (collect_frameworks w sdk).2 = Ok (Collected frameworks sdk_root) →
       (sdk_target_of sdk target).2 = Ok sdk_target →
       created.2
       = Ok [job_for cmd_common cmd_extra_args sdk sdk_root sdk_target
               output_dir quiet m])
  ∧ (∀ jobs, created.2 = Ok jobs → ∃ j, jobs = [j] ∧ job_module j = m).
Proof.
  intros Hm created.
  assert (truthy (Some m) = true) as Htruthy by by destruct m.
  split; [apply create_events|]. split; [|split].
  - unfold created. rewrite create_events, collect_frameworks_cases.
    cbv zeta.
    destruct (negb _); [|destruct (negb _); [|destruct (entries w _)]];
      by eexists.
  - intros fw root t Hcf Ht. unfold created.
    by rewrite create_outcome, Hcf, Ht, Htruthy.
  - intros jobs (fw & root & t & _ & _ & ->)%create_jobs_inv.
    cbv zeta. rewrite Htruthy. by eexists.
Qed.

Lemma explicit_module_single_job_witness :
  ∃ j,
    (create_dump_module_api_args sample_world ["swift-ide-test"]
       ["-skip-imports"] "macosx" (Some "AppKit") None
       "omit-needless-words.swift" "out" false).2 = Ok [j]
    ∧ job_module j = "AppKit".
Proof.
  destruct (explicit_module_single_job sample_world ["swift-ide-test"]
              ["-skip-imports"] "macosx" "AppKit" None
              "omit-needless-words.swift" "out" false)
    as (_ & _ & _ & Hjobs); [discriminate|].
  destruct (Hjobs _ eq_refl) as (j & Heq & Hmod).
  exists j. split; [|done]. rewrite <- Heq. reflexivity.
Defined.

(** C3, as stated, fails: with the explicit module [AppKit] both SDK queries
    are issued and the frameworks directory is listed. *)
Lemma explicit_module_still_discovers :
  create_dump_module_api_args sample_world ["swift-ide-test"]
    ["-skip-imports"] "macosx" (Some "AppKit") None
    "omit-needless-words.swift" "out" false
  = ([Popen ["xcrun"; "--show-sdk-path"; "-sdk"; "macosx"];
      Popen ["xcrun"; "--show-sdk-version"; "-sdk"; "macosx"];
      Print "Collecting frameworks from OSX 10.11 at /SDKs/macosx.sdk";
      ListDir "/SDKs/macosx.sdk/System/Library/Frameworks"],
     Ok [job_for ["swift-ide-test"] ["-skip-imports"] "macosx"
           "/SDKs/macosx.sdk" "x86_64-apple-macosx10.11" "out" false
           "AppKit"]).
Proof. vm_compute. reflexivity. Qed.

(** ** The scratch file and the files a run touches *)

(** A file called after a name without [/] is a proper component. *)
Lemma proper_file (name : string) :
  all_chars not_slash name = true → proper_component (name +:+ ".swift").
Proof.
  intros Hname.
  assert (∀ s, String.length s < 6 → name +:+ ".swift" ≠ s)%nat as Hlen.
  { intros s Hs Heq. apply (f_equal String.length) in Heq.
    rewrite string_length_app in Heq. simpl in Heq. lia. }
  split; [apply Hlen; simpl; lia|]. split; [apply Hlen; simpl; lia|].
  split; [apply Hlen; simpl; lia|]. by rewrite all_chars_app, Hname.
Qed.

Section Frame.

Variables (w : world) (args : arguments).


Variables (sdk sdk_root sdk_target m : string).

Local Abbreviation j :=
  (job_for (cmd_common_of args) (extra_args_of args) sdk sdk_root sdk_target
     (args_output_dir args) (args_quiet args) m).





Hypothesis Hsdk : sdk ∈ args_sdk args.
Hypothesis Hm : proper_component m.
Hypothesis Hdash : String.prefix "-" (args_output_dir args) = false.

Lemma output_path_in_tree (name : string) :
  all_chars not_slash name = true →
  in_output_tree args (output_path j name).
Proof.
  intros Hname. exists sdk, m. split; [done|]. split; [done|]. right.
  exists (name +:+ ".swift"). split; [by apply proper_file|].
  by rewrite output_path_job_for.
Qed.






End Frame.

(** The modules of the jobs of a run with proper module names are proper
    components. *)
Lemma proper_modules_job (w : world) (args : arguments) (sdk : string)
  (jobs : list job) (j : job) :
  proper_modules w args → sdk ∈ args_sdk args →
  (create_dump_module_api_args w (cmd_common_of args) (extra_args_of args)
     sdk (args_module args) (args_target args) source_filename
     (args_output_dir args) (args_quiet args)).2 = Ok jobs →
  j ∈ jobs → proper_component (job_module j).
Proof.
  intros [Hexplicit Hfound] Hsdk Hjobs Hj.
  destruct (create_job_module_cases _ _ _ _ _ _ _ _ _ _ _ Hjobs Hj)
    as [(m & Hmod & Hne & ->)
       |(Hnone & Hne & Hword & fw & root & Hcf & Hin)].
  - destruct Hexplicit as [Hproper _]; [by rewrite Hmod; cbn; rewrite Hne|].
    by rewrite Hmod in Hproper.
  - destruct (Hfound Hnone sdk fw root Hsdk Hcf) as [Hdot Hdots].
    split; [done|]. split; [by intros Heq; rewrite Heq in Hin|].
    split; [by intros Heq; rewrite Heq in Hin|]. by apply word_not_slash.
Qed.


(** The sample world discovers the one module [Foo] for every SDK. *)
Lemma sample_proper_modules (sdks : list string) :
  proper_modules sample_world (sample_arguments sdks None).
Proof.
  split; [intros Hmodule; discriminate Hmodule|].
  intros _ sdk frameworks sdk_root _
    (listing & Hlisting & -> & _)%collect_frameworks_inv.
  injection Hlisting as <-.
  split; intros Hin; vm_compute in Hin;
    apply list_elem_of_singleton in Hin; discriminate Hin.
Qed.




(** * Further properties of the script *)

(** ** The SDK families *)

Lemma prefix_head (a : ascii) (p s : string) :
  String.prefix (String a p) s = true → ∃ s', s = String a s'.
Proof.
  destruct s as [|c s]; simpl; [done|].
  destruct (ascii_dec a c) as [->|]; [|done]. by exists s.
Qed.

Ltac family_clash H1 H2 :=
  exfalso; apply prefix_head in H1 as [? ->]; simpl in H2; discriminate H2.

(** The label of an SDK tells its family, and the family the label: the four
    prefixes exclude one another, so that each label is returned exactly for
    the names that begin with its prefix, and [unknownOS] exactly for the
    names that begin with none. *)
Theorem pretty_sdk_name_families (sdk : string) :
  (pretty_sdk_name sdk = "OSX" ↔ starts_with "macosx" sdk)
  ∧ (pretty_sdk_name sdk = "iOS" ↔ starts_with "iphoneos" sdk)
  ∧ (pretty_sdk_name sdk = "watchOS" ↔ starts_with "watchos" sdk)
  ∧ (pretty_sdk_name sdk = "tvOS" ↔ starts_with "appletvos" sdk)
  ∧ (pretty_sdk_name sdk = "unknownOS"
     ↔ ¬ starts_with "macosx" sdk ∧ ¬ starts_with "iphoneos" sdk
       ∧ ¬ starts_with "watchos" sdk ∧ ¬ starts_with "appletvos" sdk).
Proof.
  rewrite !not_starts_with, <- !prefix_starts_with, pretty_sdk_name_cases.
  destruct (String.prefix "macosx" sdk) eqn:H1;
    destruct (String.prefix "iphoneos" sdk) eqn:H2;
    try family_clash H1 H2;
    destruct (String.prefix "watchos" sdk) eqn:H3;
    try family_clash H1 H3; try family_clash H2 H3;
    destruct (String.prefix "appletvos" sdk) eqn:H4;
    try family_clash H1 H4; try family_clash H2 H4; try family_clash H3 H4;
    repeat split; try done; intros; by intuition.
Qed.

(** The labels hold no [/]. *)
Lemma pretty_sdk_name_not_slash (sdk : string) :
  all_chars not_slash (pretty_sdk_name sdk) = true.
Proof.
  rewrite pretty_sdk_name_cases.
  by repeat destruct (String.prefix _ sdk).
Qed.

(** ** The SDK root *)

(** [rstrip] removes a run of white space at the end, and all of it. *)
Lemma rstrip_spec (s : string) :
  (∃ ws, s = rstrip s +:+ ws ∧ all_chars is_whitespace ws = true)
  ∧ ends_clean (rstrip s).
Proof.
  induction s as [|c s [(ws & Hs & Hws) Hclean]].
  - split; [by exists ""|]. intros [|??] ? Heq; discriminate Heq.
  - simpl. destruct (is_empty (rstrip s) && is_whitespace c) eqn:Hcase.
    + apply andb_true_iff in Hcase as [Hempty Hc].
      destruct (rstrip s); [|done]. split.
      * exists (String c ws). rewrite string_app_nil_l in *. subst s.
        split; [done|]. simpl. by rewrite Hc.
      * intros [|??] ? Heq; discriminate Heq.
    + split.
      * exists ws. rewrite string_app_cons. by rewrite <- Hs.
      * intros [|d pre] e Heq.
        -- rewrite string_app_nil_l in Heq. injection Heq as <- Hr.
           rewrite Hr in Hcase. by destruct (is_whitespace c).
        -- rewrite string_app_cons in Heq. injection Heq as <- Hr.
           by apply (Hclean pre).
Qed.

(** The SDK root that job construction passes after [-sdk] is the output of
    the SDK path query without the white space at its end (the line break of
    [xcrun] above all); white space inside the path is kept. *)
Theorem sdk_root_is_stripped (w : world)
  (cmd_common cmd_extra_args : list string) (sdk : string)
  (module target : option string) (source_file output_dir : string)
  (quiet : bool) (jobs : list job) :
  (create_dump_module_api_args w cmd_common cmd_extra_args sdk module target
     source_file output_dir quiet).2 = Ok jobs →
  ∃ sdk_root sdk_target ws,
    (spawn w (sdk_path_query sdk)).1.2 = sdk_root +:+ ws
    ∧ all_chars is_whitespace ws = true
    ∧ ends_clean sdk_root
    ∧ ∀ j, j ∈ jobs →
        job_cmd j = cmd_common ++ ["-sdk"; sdk_root; "-target"; sdk_target].
Proof.
  intros (fw & root & t & Hcf & Ht & ->)%create_jobs_inv.
  apply collect_frameworks_inv in Hcf as (_ & _ & _ & -> & _).
  destruct (rstrip_spec (spawn w (sdk_path_query sdk)).1.2)
    as [(ws & Hs & Hws) Hclean].
  exists (rstrip (spawn w (sdk_path_query sdk)).1.2), t, ws.
  split; [done|]. split; [done|]. split; [done|].
  intros j Hj. cbv zeta in Hj. destruct (truthy module).
  - by apply list_elem_of_singleton in Hj as ->.
  - by apply list_elem_of_fmap in Hj as (m & -> & _).
Qed.

Lemma sdk_root_is_stripped_witness :
  ∃ sdk_root sdk_target ws,
    "/SDKs/macosx.sdk" +:+ LF = sdk_root +:+ ws
    ∧ all_chars is_whitespace ws = true
    ∧ ends_clean sdk_root
    ∧ job_cmd
        (job_for ["swift-ide-test"] ["-skip-imports"] "macosx"
           "/SDKs/macosx.sdk" "x86_64-apple-macosx10.11" "out" false "Foo")
      = ["swift-ide-test"; "-sdk"; sdk_root; "-target"; sdk_target].
Proof.
  destruct (sdk_root_is_stripped sample_world ["swift-ide-test"]
              ["-skip-imports"] "macosx" None None
              "omit-needless-words.swift" "out" false
              [job_for ["swift-ide-test"] ["-skip-imports"] "macosx"
                 "/SDKs/macosx.sdk" "x86_64-apple-macosx10.11" "out" false
                 "Foo"])
    as (root & t & ws & Hout & Hws & Hclean & Hjobs).
  - vm_compute. reflexivity.
  - exists root, t, ws. split; [exact Hout|]. split; [done|].
    split; [done|]. apply Hjobs, list_elem_of_singleton. reflexivity.
Defined.

(** ** Bundles and their names *)

(** A run of the class is taken whole when what follows gives nothing more
    to the group. *)
Lemma greedy_cap_run (k : Re.cls) (cont : string → option string)
  (name s : string) :
  all_chars (Re.mem k) name = true →
  Re.greedy_cap k cont s = Some "" →
  Re.greedy_cap k cont (name +:+ s) = Some name.
Proof.
  intros Hname Hs. induction name as [|c name IH]; [done|].
  simpl in Hname. apply andb_true_iff in Hname as [Hc Hname].
  rewrite string_app_cons. simpl. by rewrite Hc, (IH Hname).
Qed.

(** The framework pattern gives a bundle its name back. *)
Lemma framework_matcher_bundle (name : string) :
  name ≠ "" → all_chars Re.word_char name = true →
  Re.exec framework_matcher (name +:+ ".framework") = Some name.
Proof.
  intros Hne Hword. destruct name as [|c name]; [done|].
  simpl in Hword. apply andb_true_iff in Hword as [Hc Hname].
  change framework_matcher with (Re.Group Re.Word :: Re.lits ".framework").
  rewrite string_app_cons.
  change (Re.exec (Re.Group Re.Word :: ?p) (String c ?s))
    with (if Re.mem Re.Word c
          then String c <$> Re.greedy_cap Re.Word (Re.exec p) s else None).
  change (Re.mem Re.Word c) with (Re.word_char c). rewrite Hc.
  by rewrite (greedy_cap_run Re.Word _ name ".framework" Hname).
Qed.

(** A bundle [<name>.framework] of the frameworks directory, with a name over
    [[A-Za-z_0-9.]], is collected under that very name unless the name is
    deny-listed, and then it is not collected at all. *)
Theorem bundle_is_collected (w : world) (sdk : string)
  (frameworks listing : list string) (sdk_root name : string) :
  (collect_frameworks w sdk).2 = Ok (Collected frameworks sdk_root) →
  entries w (frameworks_dir_of sdk_root) = Some listing →
  name +:+ ".framework" ∈ listing →
  name ≠ "" → all_chars Re.word_char name = true →
  (name ∈ frameworks ↔ name ∉ SKIPPED_FRAMEWORKS).
Proof.
  intros (listing' & Hl & -> & _)%collect_frameworks_inv Hlisting Hin Hne
    Hword.
  rewrite Hlisting in Hl. injection Hl as <-.
  rewrite sorted_elem_of, elem_of_frameworks_of. split; [by intros [? _]|].
  intros Hkeep. split; [done|]. exists (name +:+ ".framework").
  split; [done|]. by apply framework_matcher_bundle.
Qed.

Lemma bundle_is_collected_witness :
  ∃ frameworks,
    (collect_frameworks sample_world "macosx").2
    = Ok (Collected frameworks "/SDKs/macosx.sdk")
    ∧ "Foo" ∈ frameworks ∧ "System" ∉ frameworks.
Proof.
  destruct (collect_frameworks sample_world "macosx").2
    as [[|frameworks root]|e] eqn:Hcf; try (vm_compute in Hcf; discriminate).
  assert (root = "/SDKs/macosx.sdk") as ->.
  { vm_compute in Hcf. by injection Hcf as _ <-. }
  exists frameworks. split; [done|]. split.
  - apply (bundle_is_collected sample_world "macosx" frameworks
             ["System.framework"; "Foo.framework"; "README"]
             "/SDKs/macosx.sdk" "Foo" Hcf); try reflexivity.
    + apply list_elem_of_In. simpl. tauto.
    + discriminate.
    + vm_compute. intros H. discriminate H.
  - intros Hin.
    apply (bundle_is_collected sample_world "macosx" frameworks
             ["System.framework"; "Foo.framework"; "README"]
             "/SDKs/macosx.sdk" "System" Hcf) in Hin; try reflexivity.
    + apply Hin. vm_compute. reflexivity.
    + apply list_elem_of_In. simpl. tauto.
    + discriminate.
Defined.

(** ** What stands before an import *)

Lemma greedy_prefix (k : Re.cls) (cont : string → option string)
  (u s g : string) :
  all_chars (Re.mem k) u = true →
  Re.greedy k cont s = Some g → Re.greedy k cont (u +:+ s) = Some g.
Proof.
  intros Hu Hs. induction u as [|c u IH]; [done|].
  simpl in Hu. apply andb_true_iff in Hu as [Hc Hu].
  rewrite string_app_cons. simpl. by rewrite Hc, (IH Hu).
Qed.

(** Text put before a line that imports a submodule (an attribute, a
    comment sign, indentation) does not change the name that the line
    contributes, as long as it holds no LF.  The name of the module is one
    for which the pattern is embedded: its only special character is the
    dot. *)
Theorem import_prefix_ignored (module pre line sub : string) :
  Re.plain module = true →
  all_chars (Re.mem Re.Any) pre = true →
  Re.exec (import_matcher module) line = Some sub →
  Re.exec (import_matcher module) (pre +:+ line) = Some sub.
Proof.
  intros _. change (import_matcher module) with
    (Re.Star Re.Any
     :: (Re.lits "import"
         ++ Re.Plus Re.Space
            :: (Re.interpolated module
                ++ [Re.One (Re.Lit "."); Re.Group Re.Word]))).
  change (Re.exec (Re.Star Re.Any :: ?p) ?l)
    with (Re.greedy Re.Any (Re.exec p) l).
  apply greedy_prefix.
Qed.

Lemma import_prefix_ignored_witness :
  Re.exec (import_matcher "Foo") ("@exported " +:+ "import Foo.Bar")
  = Some "Bar".
Proof.
  apply (import_prefix_ignored "Foo" "@exported " "import Foo.Bar" "Bar");
    reflexivity.
Defined.

(** ** The order of the discovered entries *)

Lemma frameworks_of_same_entries (l1 l2 : list string) :
  (∀ entry, entry ∈ l1 ↔ entry ∈ l2) → frameworks_of l1 = frameworks_of l2.
Proof.
  intros Hsame. apply set_eq. intros n. rewrite !elem_of_frameworks_of.
  split; intros (Hn & entry & Hentry & Hm); (split; [done|]);
    exists entry; (split; [by apply Hsame|done]).
Qed.

Lemma submodules_of_same_lines (module : string) (l1 l2 : list string) :
  (∀ line, line ∈ l1 ↔ line ∈ l2) →
  submodules_of module l1 = submodules_of module l2.
Proof.
  intros Hsame. apply set_eq. intros n. rewrite !elem_of_submodules_of.
  split; intros (line & Hline & Hm); exists line;
    (split; [by apply Hsame|done]).
Qed.

(** Framework collection does not depend on the order in which the system
    lists the frameworks directory, nor on how often it lists an entry: two
    worlds that answer the SDK queries alike and list the same entries give
    the same trace and the same result. *)
Theorem collect_frameworks_listing_order (w1 w2 : world) (sdk : string)
  (l1 l2 : list string) :
  spawn w1 (sdk_path_query sdk) = spawn w2 (sdk_path_query sdk) →
  spawn w1 (sdk_version_query sdk) = spawn w2 (sdk_version_query sdk) →
  entries w1 (frameworks_dir_of (rstrip (spawn w1 (sdk_path_query sdk)).1.2))
  = Some l1 →
  entries w2 (frameworks_dir_of (rstrip (spawn w1 (sdk_path_query sdk)).1.2))
  = Some l2 →
  (∀ entry, entry ∈ l1 ↔ entry ∈ l2) →
  collect_frameworks w1 sdk = collect_frameworks w2 sdk.
Proof.
  intros Hq1 Hq2 H1 H2 Hsame. rewrite !collect_frameworks_cases. cbv zeta.
  rewrite <- Hq1, <- Hq2, H1, H2.
  by rewrite (frameworks_of_same_entries l1 l2 Hsame).
Qed.

(** The result of submodule collection does not depend on the order of the
    lines of the output, nor on how often a line occurs. *)
Theorem collect_submodules_line_order (w1 w2 : world) (cmd : list string)
  (module : string) :
  (spawn w1 (submodules_query cmd module)).1.1
  = (spawn w2 (submodules_query cmd module)).1.1 →
  (∀ line,
     line ∈ splitlines (spawn w1 (submodules_query cmd module)).1.2
     ↔ line ∈ splitlines (spawn w2 (submodules_query cmd module)).1.2) →
  collect_submodules w1 cmd module = collect_submodules w2 cmd module.
Proof.
  intros Hcode Hsame. rewrite !collect_submodules_cases. cbv zeta.
  rewrite <- Hcode.
  by rewrite (submodules_of_same_lines module _ _ Hsame).
Qed.

Lemma collect_frameworks_listing_order_witness :
  collect_frameworks sample_world "macosx"
  = collect_frameworks shuffled_world "macosx".
Proof.
  apply (collect_frameworks_listing_order sample_world shuffled_world
           "macosx" ["System.framework"; "Foo.framework"; "README"]
           ["README"; "Foo.framework"; "System.framework"; "Foo.framework"]);
    try reflexivity.
  intros entry. rewrite !elem_of_cons, !elem_of_nil. tauto.
Defined.

Lemma collect_submodules_line_order_witness :
  collect_submodules sample_world ["swift-ide-test"] "Foo"
  = collect_submodules shuffled_world ["swift-ide-test"] "Foo".
Proof.
  apply (collect_submodules_line_order sample_world shuffled_world
           ["swift-ide-test"] "Foo"); [reflexivity|].
  assert (splitlines
            (spawn sample_world
               (submodules_query ["swift-ide-test"] "Foo")).1.2
          = ["import Foo"; "@exported import Foo.Bar"; "import Foo.Baz.Qux";
             "import Foo.Bar"]) as -> by reflexivity.
  assert (splitlines
            (spawn shuffled_world
               (submodules_query ["swift-ide-test"] "Foo")).1.2
          = ["import Foo.Baz.Qux"; "import Foo.Bar"; "import Foo";
             "@exported import Foo.Bar"; "import Foo"]) as -> by reflexivity.
  intros line. rewrite !elem_of_cons, !elem_of_nil. tauto.
Defined.

(** ** The files of one job *)

(** Every file of a job is called after the module or after a submodule
    and stands in [<output_dir>/<module>/]; the name of a submodule is not
    empty and holds no [/], so that its file lies directly in that
    directory, and the file called after a submodule [N] of module [M]
    receives the dump of [M.N].  The name of the module is one for which
    the import pattern is embedded. *)
Theorem job_files_in_module_directory (w : world) (j : job)
  (cmd : list string) (f : string) :
  Re.plain (job_module j) = true →
  (cmd, f) ∈ file_writes (dump_module_api w j).1 →
  ∃ name,
    f = job_output_dir j +:+ "/" +:+ job_module j +:+ "/" +:+ name
        +:+ ".swift"
    ∧ (name = job_module j ∧ cmd = dump_command j (job_module j)
       ∨ name ≠ "" ∧ all_chars not_slash name = true
         ∧ cmd = dump_command j (job_module j +:+ "." +:+ name)).
Proof.
  intros _ (name & -> & Hname)%file_writes_names.
  exists name. split; [done|].
  destruct Hname as [?|(Hne & Hword & Hcmd)]; [by left|]. right.
  split; [done|]. split; [by apply word_not_slash|done].
Qed.

Lemma job_files_in_module_directory_witness :
  ∃ name,
    "out/OSX/AppKit/AppKit.swift"
    = job_output_dir sample_job +:+ "/" +:+ job_module sample_job +:+ "/"
      +:+ name +:+ ".swift".
Proof.
  destruct (job_files_in_module_directory sample_world sample_job
              (dump_command sample_job "AppKit")
              "out/OSX/AppKit/AppKit.swift") as (name & Hname & _).
  - reflexivity.
  - vm_compute. apply list_elem_of_In. simpl. tauto.
  - by exists name.
Defined.

(** The files of a job whose output directory does not begin with [-] are
    pairwise distinct exactly when no submodule bears the name of the module.
    When one does, the file of the module is written twice: first with the
    dump of the module, later with the dump of that submodule.  (A job whose
    output directory begins with [-] has no directory made for it by
    [mkdir], and then writes nothing at all.)  The name of the module is one
    for which the import pattern is embedded. *)
Theorem job_files_distinct (w : world) (j : job) (submodules : list string) :
  (collect_submodules w (job_cmd j) (job_module j)).2 = Ok submodules →
  String.prefix "-" (job_output_dir j) = false →
  Re.plain (job_module j) = true →
  let M := job_module j in
  (NoDup (file_writes (dump_module_api w j).1).*2 ↔ M ∉ submodules)
  ∧ (M ∈ submodules →
     ∃ between after,
       file_writes (dump_module_api w j).1
       = (dump_command j M, output_path j M)
         :: between
         ++ (dump_command j (M +:+ "." +:+ M), output_path j M) :: after).
Proof.
  intros Hsub Hdash _ M.
  destruct (collect_submodules_names w _ _ _ Hsub) as [Hnodup Hnames].
  pose proof (sub_opens_made w j Hdash) as Hopen.
  assert (M ∈ submodules →
          file_writes (dump_module_api w j).1
          = (dump_command j M, output_path j M)
            :: ((λ submodule,
                   (dump_command j (M +:+ "." +:+ submodule),
                    output_path j submodule)) <$> submodules)) as Hfull.
  { intros HM. destruct (Hnames M HM) as [_ Hword].
    apply file_writes_dump_module_api; [done| |by left].
    by rewrite top_opens_sub; [|apply word_not_slash]. }
  split; [split|].
  - intros Hdistinct HM. rewrite (Hfull HM) in Hdistinct.
    rewrite fmap_cons, <- list_fmap_compose in Hdistinct. cbn [snd] in Hdistinct.
    apply NoDup_cons in Hdistinct as [Hnot _]. apply Hnot.
    apply list_elem_of_fmap. by exists M.
  - intros HM.
    destruct (file_writes_prefix w j submodules Hsub) as [rest Hrest].
    assert (NoDup ((dump_command j M, output_path j M)
                   :: ((λ submodule,
                          (dump_command j (M +:+ "." +:+ submodule),
                           output_path j submodule)) <$> submodules)).*2)
      as Hall.
    { rewrite fmap_cons, <- list_fmap_compose. cbn [snd].
      apply NoDup_cons. split.
      - intros (n & Heq & Hn)%list_elem_of_fmap. cbn [compose snd] in Heq.
        apply output_path_inj in Heq. by subst n.
      - apply NoDup_fmap_2_strong; [|done].
        intros n1 n2 _ _ Heq. by apply output_path_inj in Heq. }
    fold M in Hrest. rewrite Hrest, fmap_app in Hall.
    by apply NoDup_app in Hall as [? _].
  - intros HM. rewrite (Hfull HM).
    apply list_elem_of_split in HM as (before & after & ->).
    rewrite fmap_app, fmap_cons. by eexists _, _.
Qed.

(** The same module and submodules with an output directory that begins
    with [-]: [mkdir -p -out/OSX/Foo] makes nothing, the job raises at its
    first file, and the file of the module is written neither twice nor
    once. *)
Lemma dash_directory_writes_nothing :
  let j := job_for ["swift-ide-test"] [] "macosx" "/SDKs/macosx.sdk"
             "x86_64-apple-macosx10.11" "-out" true "Foo" in
  (collect_submodules umbrella_world (job_cmd j) (job_module j)).2
  = Ok ["Bar"; "Foo"]
  ∧ (dump_module_api umbrella_world j).2
    = Raise (IOError "-out/OSX/Foo/Foo.swift")
  ∧ file_writes (dump_module_api umbrella_world j).1 = [].
Proof. cbv zeta. repeat split; vm_compute; reflexivity. Qed.

Lemma job_files_distinct_witness :
  ∃ between after,
    (file_writes
       (dump_module_api umbrella_world
          (job_for ["swift-ide-test"] [] "macosx" "/SDKs/macosx.sdk"
             "x86_64-apple-macosx10.11" "out" true "Foo")).1).*2
    = "out/OSX/Foo/Foo.swift" :: between ++ "out/OSX/Foo/Foo.swift" :: after.
Proof.
  set (j := job_for ["swift-ide-test"] [] "macosx" "/SDKs/macosx.sdk"
              "x86_64-apple-macosx10.11" "out" true "Foo").
  destruct (job_files_distinct umbrella_world j ["Bar"; "Foo"])
    as [_ Hdup]; [vm_compute; reflexivity | reflexivity | reflexivity |].
  destruct Hdup as (between & after & ->).
  - apply list_elem_of_In. simpl. tauto.
  - exists between.*2, after.*2. rewrite fmap_cons, fmap_app, fmap_cons.
    reflexivity.
Defined.

(** ** The files of different jobs *)

Section Families.

Variables (cmd_common cmd_extra_args : list string).
Variables (output_dir : string) (quiet : bool).

Local Abbreviation built sdk sdk_root sdk_target m :=
  (job_for cmd_common cmd_extra_args sdk sdk_root sdk_target output_dir
     quiet m).

(** Two files of two jobs coincide only if the SDKs have the same label, and
    then what follows the label coincides too. *)
Lemma output_path_label (sdk1 sdk2 r1 r2 t1 t2 m1 m2 n1 n2 : string) :
  output_path (built sdk1 r1 t1 m1) n1 = output_path (built sdk2 r2 t2 m2) n2 →
  pretty_sdk_name sdk1 = pretty_sdk_name sdk2
  ∧ m1 +:+ "/" +:+ n1 +:+ ".swift" = m2 +:+ "/" +:+ n2 +:+ ".swift".
Proof.
  rewrite !output_path_job_for. intros Heq.
  do 2 apply (inj (String.app _)) in Heq.
  apply slash_split in Heq; [done|apply pretty_sdk_name_not_slash..].
Qed.

End Families.

(** Two jobs for the same module write the file of the module (and the file
    of any submodule) to the same place exactly when their SDKs have the same
    label: SDKs of one family, such as [watchos] and [watchos.simulator],
    share their output files, SDKs of different families never do. *)
Theorem same_label_same_files (w : world)
  (cmd_common cmd_extra_args : list string) (sdk1 sdk2 : string)
  (module target : option string) (source_file output_dir : string)
  (quiet : bool) (jobs1 jobs2 : list job) (j1 j2 : job) (name : string) :
  (create_dump_module_api_args w cmd_common cmd_extra_args sdk1 module
     target source_file output_dir quiet).2 = Ok jobs1 →
  (create_dump_module_api_args w cmd_common cmd_extra_args sdk2 module
     target source_file output_dir quiet).2 = Ok jobs2 →
  j1 ∈ jobs1 → j2 ∈ jobs2 → job_module j1 = job_module j2 →
  (output_path j1 name = output_path j2 name
   ↔ pretty_sdk_name sdk1 = pretty_sdk_name sdk2).
Proof.
  intros Hjobs1 Hjobs2 Hj1 Hj2 Hmod.
  destruct (create_job_shape _ _ _ _ _ _ _ _ _ _ _ Hjobs1 Hj1)
    as (r1 & t1 & _ & Hshape1).
  destruct (create_job_shape _ _ _ _ _ _ _ _ _ _ _ Hjobs2 Hj2)
    as (r2 & t2 & _ & Hshape2).
  rewrite Hshape1, Hshape2. split.
  - by intros [? _]%output_path_label.
  - intros Hlabel. by rewrite !output_path_job_for, Hlabel, Hmod.
Qed.

Lemma same_label_same_files_witness :
  output_path
    (job_for ["swift-ide-test"] [] "watchos" "/SDKs/watchos.sdk"
       "armv7k-apple-watchos2.0" "out" false "Foo") "Foo"
  = output_path
      (job_for ["swift-ide-test"] [] "watchos.simulator"
         "/SDKs/watchos.simulator.sdk" "i386-apple-watchos2.0" "out" false
         "Foo") "Foo".
Proof.
  apply (same_label_same_files sample_world ["swift-ide-test"] [] "watchos"
           "watchos.simulator" None None "omit-needless-words.swift" "out"
           false
           [job_for ["swift-ide-test"] [] "watchos" "/SDKs/watchos.sdk"
              "armv7k-apple-watchos2.0" "out" false "Foo"]
           [job_for ["swift-ide-test"] [] "watchos.simulator"
              "/SDKs/watchos.simulator.sdk" "i386-apple-watchos2.0" "out"
              false "Foo"]);
    try (vm_compute; reflexivity);
    apply list_elem_of_singleton; reflexivity.
Defined.

Section Keys.

Variables (w : world) (cmd_common cmd_extra_args : list string).
Variables (module target : option string).
Variables (source_file output_dir : string) (quiet : bool).

Local Abbreviation create sdk :=
  (create_dump_module_api_args w cmd_common cmd_extra_args sdk module target
     source_file output_dir quiet).

(** The module of a job is the explicit one, or a discovered name, which
    holds no [/]. *)
Lemma create_job_module (sdk : string) (jobs : list job) (j : job) :
  (create sdk).2 = Ok jobs → j ∈ jobs →
  truthy module = true ∧ job_module j = default "" module
  ∨ all_chars not_slash (job_module j) = true.
Proof.
  intros (fw & root & t & Hcf & _ & ->)%create_jobs_inv Hj.
  cbv zeta in Hj. destruct (truthy module) eqn:Hmod.
  - left. by apply list_elem_of_singleton in Hj as ->.
  - right. apply list_elem_of_fmap in Hj as (m & -> & Hm).
    apply collect_frameworks_inv in Hcf as (listing & _ & -> & _).
    apply sorted_elem_of, elem_of_frameworks_of in Hm
      as (_ & entry & _ & Hentry).
    apply framework_matcher_sound in Hentry as (_ & Hword & _).
    by apply word_not_slash.
Qed.

(** The jobs of one SDK are for different modules. *)
Lemma create_keys_NoDup (sdk : string) (jobs : list job) :
  (create sdk).2 = Ok jobs → NoDup (job_key <$> jobs).
Proof.
  intros (fw & root & t & Hcf & _ & ->)%create_jobs_inv. cbv zeta.
  destruct (truthy module); [apply NoDup_singleton|].
  rewrite <- list_fmap_compose. apply NoDup_fmap_2_strong.
  - intros m1 m2 _ _ Heq. by injection Heq.
  - apply collect_frameworks_inv in Hcf as (listing & _ & -> & _).
    apply sorted_NoDup.
Qed.

Lemma create_job_directory (sdk : string) (jobs : list job) (j : job) :
  (create sdk).2 = Ok jobs → j ∈ jobs →
  job_output_dir j = output_dir +:+ "/" +:+ pretty_sdk_name sdk.
Proof.
  intros Hjobs Hj.
  destruct (create_job_shape _ _ _ _ _ _ _ _ _ _ _ Hjobs Hj)
    as (root & t & _ & ->).
  done.
Qed.

(** Two files of jobs built from the same command line coincide only for
    jobs with the same output directory and module. *)
Lemma output_path_key (sdk1 sdk2 : string) (jobs1 jobs2 : list job)
  (j1 j2 : job) (n1 n2 : string) :
  (create sdk1).2 = Ok jobs1 → (create sdk2).2 = Ok jobs2 →
  j1 ∈ jobs1 → j2 ∈ jobs2 →
  output_path j1 n1 = output_path j2 n2 → job_key j1 = job_key j2.
Proof.
  intros Hjobs1 Hjobs2 Hj1 Hj2 Heq.
  pose proof (create_job_module _ _ _ Hjobs1 Hj1) as Hm1.
  pose proof (create_job_module _ _ _ Hjobs2 Hj2) as Hm2.
  pose proof (create_job_directory _ _ _ Hjobs1 Hj1) as Hd1.
  pose proof (create_job_directory _ _ _ Hjobs2 Hj2) as Hd2.
  destruct (create_job_shape _ _ _ _ _ _ _ _ _ _ _ Hjobs1 Hj1)
    as (r1 & t1 & _ & Hshape1).
  destruct (create_job_shape _ _ _ _ _ _ _ _ _ _ _ Hjobs2 Hj2)
    as (r2 & t2 & _ & Hshape2).
  rewrite Hshape1, Hshape2 in Heq.
  apply output_path_label in Heq as [Hlabel Hrest].
  unfold job_key. rewrite Hd1, Hd2, Hlabel. f_equal.
  destruct Hm1 as [[Htruthy ->]|Hs1].
  - destruct Hm2 as [[_ ->]|Hs2]; [done|].
    apply create_jobs_inv in Hjobs2 as (? & ? & ? & _ & _ & ->).
    cbv zeta in Hj2. rewrite Htruthy in Hj2.
    by apply list_elem_of_singleton in Hj2 as ->.
  - destruct Hm2 as [[Htruthy ->]|Hs2].
    + apply create_jobs_inv in Hjobs1 as (? & ? & ? & _ & _ & ->).
      cbv zeta in Hj1. rewrite Htruthy in Hj1.
      by apply list_elem_of_singleton in Hj1 as ->.
    + by apply slash_split in Hrest as [? _].
Qed.

End Keys.

Section DistinctFiles.

Variables (w : world) (args : arguments).

Local Abbreviation create sdk :=
  (create_dump_module_api_args w (cmd_common_of args) (extra_args_of args)
     sdk (args_module args) (args_target args) source_filename
     (args_output_dir args) (args_quiet args)).

Local Abbreviation construct sdks jobs :=
  (construct_jobs w (cmd_common_of args) (extra_args_of args) args
     source_filename sdks jobs).

(** When the labels of the SDKs differ from one another, so do the output
    directories and modules of the jobs. *)
Lemma construct_jobs_keys (sdks seen : list string) (jobs result : list job) :
  NoDup (pretty_sdk_name <$> (seen ++ sdks)) →
  NoDup (job_key <$> jobs) →
  (∀ j, j ∈ jobs →
        ∃ s, s ∈ seen
          ∧ job_output_dir j
            = args_output_dir args +:+ "/" +:+ pretty_sdk_name s) →
  (construct sdks jobs).2 = Ok result →
  NoDup (job_key <$> result).
Proof.
  revert seen jobs. induction sdks as [|s sdks IH];
    intros seen jobs Hlabels Hkeys Hdirs.
  - by intros [= <-].
  - cbn [construct_jobs]. rewrite bind_outcome.
    destruct ((create s).2) as [more|e] eqn:Hs; [|done].
    apply (IH (seen ++ [s])).
    + by rewrite <- (assoc_L (++)).
    + rewrite fmap_app. apply NoDup_app. split; [done|].
      split; [|by eapply create_keys_NoDup].
      intros key (a & -> & Ha)%list_elem_of_fmap
        (b & Heq & Hb)%list_elem_of_fmap.
      destruct (Hdirs a Ha) as (s' & Hs' & Hdir).
      pose proof (create_job_directory _ _ _ _ _ _ _ _ _ _ _ Hs Hb)
        as Hdir'.
      injection Heq as Heq _. rewrite Hdir, Hdir' in Heq.
      do 2 apply (inj (String.app _)) in Heq.
      rewrite fmap_app, fmap_cons in Hlabels.
      apply NoDup_app in Hlabels as (_ & Hnot & _).
      apply (Hnot (pretty_sdk_name s')).
      * apply list_elem_of_fmap. by exists s'.
      * rewrite Heq. by left.
    + intros j [Hj|Hj]%elem_of_app.
      * destruct (Hdirs j Hj) as (s' & Hs' & Hdir).
        exists s'. split; [|done]. apply elem_of_app. by left.
      * exists s. split; [apply elem_of_app; right; by left|].
        by eapply create_job_directory.
Qed.

End DistinctFiles.

(** When the requested SDKs have labels that differ from one another and the
    module names are proper path components, every file that a worker writes
    is [<output_dir>/<label>/<module>/<file>] with a module and a file that
    are proper components (no [.], no [..], no [/] in them), and no two
    workers of a run write the same path.  Paths of this form are different
    files when they are different texts, links and file systems that fold
    case apart. *)
Theorem distinct_workers_distinct_files (w : world) (args : arguments)
  (events after : list event) (workers : list (M ()))
  (i1 i2 : nat) (worker1 worker2 : M ()) (f : string) :
  NoDup (pretty_sdk_name <$> args_sdk args) →
  proper_modules w args →
  main w args = Dispatched events workers after →
  i1 ≠ i2 →
  workers !! i1 = Some worker1 → workers !! i2 = Some worker2 →
  f ∈ (file_writes worker1.1).*2 →
  in_output_tree args f ∧ f ∉ (file_writes worker2.1).*2.
Proof.
  intros Hlabels Hproper Hmain Hne H1 H2 Hf1.
  rewrite main_cases in Hmain. cbv zeta in Hmain.
  destruct ((construct_jobs w (cmd_common_of args) (extra_args_of args) args
               source_filename (args_sdk args) []).2)
    as [jobs|e] eqn:Hjobs; [|done].
  destruct (pool_ok (args_jobs args)); [|done].
  injection Hmain as _ <- _.
  rewrite list_lookup_fmap in H1, H2.
  apply fmap_Some in H1 as (j1 & Hj1 & ->).
  apply fmap_Some in H2 as (j2 & Hj2 & ->).
  apply list_elem_of_fmap in Hf1 as ([c1 f1] & -> & Hf1). cbn [snd].
  apply file_writes_names in Hf1 as (n1 & -> & Hn1).
  destruct (construct_jobs_origin w _ _ args _ _ _ _ j1 Hjobs
              (list_elem_of_lookup_2 _ _ _ Hj1))
    as [[]%elem_of_nil|(sdk1 & more1 & Hsdk1 & Hmore1 & Hin1)].
  split.
  - pose proof (proper_modules_job w args sdk1 more1 j1 Hproper Hsdk1 Hmore1
                  Hin1) as Hmodule.
    assert (all_chars not_slash n1 = true) as Hname.
    { destruct Hn1 as [[-> _]|(_ & Hword & _)].
      - by destruct Hmodule as (_ & _ & _ & ?).
      - by apply word_not_slash. }
    destruct (create_job_shape _ _ _ _ _ _ _ _ _ _ _ Hmore1 Hin1)
      as (root & t & _ & Hshape).
    rewrite Hshape. by apply output_path_in_tree.
  - intros Hf2.
    apply list_elem_of_fmap in Hf2 as ([c2 f2] & Heq & Hf2).
    cbn [snd] in Heq. subst f2.
    apply file_writes_paths in Hf2 as [n2 Heq].
    destruct (construct_jobs_origin w _ _ args _ _ _ _ j2 Hjobs
                (list_elem_of_lookup_2 _ _ _ Hj2))
      as [[]%elem_of_nil|(sdk2 & more2 & _ & Hmore2 & Hin2)].
    pose proof (output_path_key _ _ _ _ _ _ _ _ _ _ _ _ _ _ _ _ Hmore1
                  Hmore2 Hin1 Hin2 Heq) as Hkey.
    assert (NoDup (job_key <$> jobs)) as Hkeys.
    { apply (construct_jobs_keys w args (args_sdk args) [] [] jobs);
        [done|constructor|by intros j ?%elem_of_nil|done]. }
    apply Hne.
    apply (NoDup_lookup (job_key <$> jobs) i1 i2 (job_key j1) Hkeys).
    + by rewrite list_lookup_fmap, Hj1.
    + by rewrite list_lookup_fmap, Hj2, Hkey.
Qed.

(** What the condition on the module names is for: with [-m ../x] the
    workers of [macosx] and [iphoneos] return and write two paths that differ
    as texts and are the one file [out/x.swift]. *)
Lemma climbing_module_one_file :
  ∃ events worker1 worker2 after,
    main climbing_world
      (sample_arguments ["macosx"; "iphoneos"] (Some "../x"))
    = Dispatched events [worker1; worker2] after
    ∧ worker1.2 = Ok () ∧ worker2.2 = Ok ()
    ∧ (file_writes worker1.1).*2 = ["out/OSX/../x/../x.swift"]
    ∧ (file_writes worker2.1).*2 = ["out/iOS/../x/../x.swift"].
Proof.
  eexists _, _, _, _. split; [vm_compute; reflexivity|].
  repeat split; vm_compute; reflexivity.
Qed.

Lemma distinct_workers_distinct_files_witness :
  "out/OSX/Foo/Foo.swift"
  ∉ (file_writes
       (dump_module_api sample_world
          (job_for (cmd_common_of (sample_arguments ["macosx"; "iphoneos"]
                                     None))
             ["-skip-imports"] "iphoneos" "/SDKs/iphoneos.sdk"
             "arm64-apple-ios9.0" "out" false "Foo")).1).*2.
Proof.
  set (args := sample_arguments ["macosx"; "iphoneos"] None).
  set (j1 := job_for (cmd_common_of args) ["-skip-imports"] "macosx"
               "/SDKs/macosx.sdk" "x86_64-apple-macosx10.11" "out" false
               "Foo").
  set (j2 := job_for (cmd_common_of args) ["-skip-imports"] "iphoneos"
               "/SDKs/iphoneos.sdk" "arm64-apple-ios9.0" "out" false "Foo").
  assert (∃ events,
            main sample_world args
            = Dispatched events
                [dump_module_api sample_world j1;
                 dump_module_api sample_world j2] [scratch_remove])
    as [events Hmain].
  { eexists. vm_compute. reflexivity. }
  apply (distinct_workers_distinct_files sample_world args events
           [scratch_remove]
           [dump_module_api sample_world j1; dump_module_api sample_world j2]
           0 1 (dump_module_api sample_world j1)
           (dump_module_api sample_world j2)).
  - vm_compute. repeat constructor; rewrite ?elem_of_cons, ?elem_of_nil;
      intros H; repeat destruct H as [H|H]; try discriminate H; exact H.
  - apply sample_proper_modules.
  - exact Hmain.
  - discriminate.
  - reflexivity.
  - reflexivity.
  - vm_compute. apply list_elem_of_In. simpl. tauto.
Defined.

(** ** The SDKs one after the other *)

(** A run fails with the exception of the first SDK, in the order given, whose
    job construction raises: the SDKs before it have been queried, the SDKs
    after it are not, and no job is dispatched. *)
Theorem first_failing_sdk_decides (w : world) (args : arguments)
  (before after : list string) (sdk : string) (e : exn) :
  args_sdk args = before ++ sdk :: after →
  (∀ s, s ∈ before →
        ∃ more,
          (create_dump_module_api_args w (cmd_common_of args)
             (extra_args_of args) s (args_module args) (args_target args)
             source_filename (args_output_dir args) (args_quiet args)).2
          = Ok more) →
  (create_dump_module_api_args w (cmd_common_of args) (extra_args_of args)
     sdk (args_module args) (args_target args) source_filename
     (args_output_dir args) (args_quiet args)).2 = Raise e →
  main w args
  = Aborted
      (scratch_touch
       :: concat ((λ s, (collect_frameworks w s).1) <$> before ++ [sdk]))
      e.
Proof.
  intros Hsdks Hbefore Hsdk. rewrite main_cases. cbv zeta. rewrite Hsdks.
  by rewrite (construct_jobs_first_failure w (cmd_common_of args)
                (extra_args_of args) args source_filename before after sdk e
                [] Hbefore Hsdk).
Qed.

Lemma first_failing_sdk_decides_witness :
  main sample_world (sample_arguments ["macosx"; "bogus"; "iphoneos"] None)
  = Aborted
      (scratch_touch
       :: concat ((λ s, (collect_frameworks sample_world s).1)
                    <$> ["macosx"; "bogus"]))
      (KeyError "bogus").
Proof.
  apply (first_failing_sdk_decides sample_world
           (sample_arguments ["macosx"; "bogus"; "iphoneos"] None)
           ["macosx"] ["iphoneos"] "bogus" (KeyError "bogus")).
  - reflexivity.
  - intros s ->%list_elem_of_singleton. eexists. vm_compute. reflexivity.
  - vm_compute. reflexivity.
Defined.



(** ** The exceptions of job construction *)

(** Job construction for an SDK raises in three cases and no other: a value
    error when one of the two SDK queries fails, an OS error when both succeed
    and the frameworks directory cannot be listed, and a key error for the
    SDK when collection succeeds, no non-empty target is given and the table
    has no entry for the SDK.  An explicit target thus makes every SDK that
    [xcrun] knows usable. *)
Theorem job_construction_exceptions (w : world)
  (cmd_common cmd_extra_args : list string) (sdk : string)
  (module target : option string) (source_file output_dir : string)
  (quiet : bool) (e : exn) :
  let code1 := (spawn w (sdk_path_query sdk)).1.1 in
  let code2 := (spawn w (sdk_version_query sdk)).1.1 in
  let dir :=
    frameworks_dir_of (rstrip (spawn w (sdk_path_query sdk)).1.2) in
  (create_dump_module_api_args w cmd_common cmd_extra_args sdk module target
     source_file output_dir quiet).2 = Raise e
  ↔ (e = ValueError ∧ (code1 ≠ 0 ∨ code2 ≠ 0))
    ∨ (e = OSError dir ∧ code1 = 0 ∧ code2 = 0 ∧ entries w dir = None)
    ∨ (e = KeyError sdk ∧ code1 = 0 ∧ code2 = 0 ∧ is_Some (entries w dir)
       ∧ truthy target = false
       ∧ DEFAULT_TARGET_BASED_ON_SDK !! sdk = None).
Proof.
  intros code1 code2 dir.
  rewrite create_outcome, collect_frameworks_cases. cbv zeta.
  fold code1 code2 dir. unfold sdk_target_of, subscript.
  destruct (Z.eqb_spec code1 0) as [H1|H1]; cbn [negb snd].
  2:{ split; [intros [= <-]; left; by split; [|left]|].
      intros [[-> _]|[(_ & ? & _)|(_ & ? & _)]]; done. }
  destruct (Z.eqb_spec code2 0) as [H2|H2]; cbn [negb snd].
  2:{ split; [intros [= <-]; left; by split; [|right]|].
      intros [[-> _]|[(_ & _ & ? & _)|(_ & _ & ? & _)]]; done. }
  destruct (entries w dir) as [listing|] eqn:Hdir; cbn [snd].
  2:{ split; [intros [= <-]; right; by left|].
      intros [[_ [?|?]]|[(-> & _)|(_ & _ & _ & [? ?] & _)]]; done. }
  destruct (truthy target) eqn:Htarget; cbn [ret snd].
  { split; [done|].
    intros [[_ [?|?]]|[(_ & _ & _ & ?)|(_ & _ & _ & _ & ? & _)]]; done. }
  destruct (DEFAULT_TARGET_BASED_ON_SDK !! sdk) as [t|] eqn:Htable;
    cbn [ret raise snd].
  { split; [done|].
    intros [[_ [?|?]]|[(_ & _ & _ & ?)|(_ & _ & _ & _ & _ & ?)]]; done. }
  split.
  - intros [= <-]. right. right. by repeat split; try done; eexists.
  - intros [[_ [?|?]]|[(_ & _ & _ & ?)|(-> & _)]]; done.
Qed.

(** ** The quiet flag *)

Lemma dump_unit_effects (j : job) (name printed : string) :
  filter (λ ev, is_print ev = false) (dump_unit j name printed)
  = [CallToFile (dump_command j printed) (output_path j name)].
Proof. unfold dump_unit, announce. by destruct (job_quiet j). Qed.

Lemma announce_effects (quiet : bool) (output_file : string) :
  filter (λ ev, is_print ev = false) (announce quiet output_file) = [].
Proof. unfold announce. by destruct quiet. Qed.

Lemma dump_units_effects (j : job) (printed : string → string)
  (names : list string) :
  filter (λ ev, is_print ev = false)
    (concat ((λ n, dump_unit j n (printed n)) <$> names))
  = (λ n, CallToFile (dump_command j (printed n)) (output_path j n))
      <$> names.
Proof.
  induction names as [|n names IH]; [done|].
  rewrite !fmap_cons. cbn [concat].
  by rewrite filter_app, dump_unit_effects, IH.
Qed.

(** The quiet flag silences the progress lines of a job and nothing else:
    the job spawns the same commands and writes the same files in the same
    order with it as without it, and with it the only line the job can still
    print is the report of a failed submodule query. *)
Theorem quiet_silences_progress_only (w : world) (j : job) :
  filter (λ ev, is_print ev = false) (dump_module_api w (silenced j)).1
  = filter (λ ev, is_print ev = false) (dump_module_api w j).1
  ∧ ∀ line,
      Print line ∈ (dump_module_api w (silenced j)).1 →
      Print line
      = submodules_failed
          (spawn w (submodules_query (job_cmd j) (job_module j))).1.1.
Proof.
  destruct (collect_submodules_returns w (job_cmd j) (job_module j))
    as [submodules Hsub].
  assert (∀ line,
            Print line ∈ (collect_submodules w (job_cmd j) (job_module j)).1 →
            Print line
            = submodules_failed
                (spawn w (submodules_query (job_cmd j) (job_module j))).1.1)
    as Hquery.
  { intros line Hq. rewrite collect_submodules_cases in Hq. cbv zeta in Hq.
    destruct (negb _); cbn [fst] in Hq.
    - apply elem_of_cons in Hq as [Hq|Hq]; [done|].
      by apply list_elem_of_singleton in Hq.
    - by apply list_elem_of_singleton in Hq. }
  assert (∀ line name printed,
            Print line ∉ dump_unit (silenced j) name printed) as Hunit.
  { by intros line name printed ?%list_elem_of_singleton. }
  destruct (dump_module_api_split w j submodules Hsub)
    as [Htop|[[Htop Hopen]|(Htop & Hopen & x & xs & Hx)]].
  - rewrite (dump_module_api_fails w j submodules Hsub Htop).
    rewrite (dump_module_api_fails w (silenced j) submodules Hsub Htop).
    cbn [fst silenced job_cmd job_module job_quiet]. split.
    + by rewrite !filter_app, !announce_effects.
    + intros line. rewrite !elem_of_app.
      intros [Hq|[Hm|Ha]]; [by apply Hquery| |by apply elem_of_nil in Ha].
      by apply list_elem_of_singleton in Hm.
  - rewrite (dump_module_api_cases w j submodules Hsub Htop Hopen).
    rewrite (dump_module_api_cases w (silenced j) submodules Hsub Htop Hopen).
    cbn [fst silenced job_cmd job_module]. split.
    + rewrite !filter_app, !dump_unit_effects.
      by rewrite !(dump_units_effects _ (λ n, job_module j +:+ "." +:+ n)).
    + intros line. rewrite !elem_of_app.
      intros [Hq|[Hm|[Hu|Hus]]]; [by apply Hquery| | |].
      * by apply list_elem_of_singleton in Hm.
      * by apply Hunit in Hu.
      * apply elem_of_concat in Hus as (unit & Hin & Hus).
        apply list_elem_of_fmap in Hus as (n & -> & _).
        by apply Hunit in Hin.
  - rewrite (dump_module_api_fails_later w j submodules Hsub x xs Htop Hopen
               Hx).
    rewrite (dump_module_api_fails_later w (silenced j) submodules Hsub x xs
               Htop Hopen Hx).
    cbn [fst silenced job_cmd job_module job_quiet]. split.
    + by rewrite !filter_app, !dump_unit_effects, !announce_effects.
    + intros line. rewrite !elem_of_app.
      intros [Hq|[Hm|[Hu|Ha]]];
        [by apply Hquery| | |by apply elem_of_nil in Ha].
      * by apply list_elem_of_singleton in Hm.
      * by apply Hunit in Hu.
Qed.

(** ** An explicit module and the frameworks directory *)

(** With an explicit module the frameworks directory must still be listable,
    but what it holds is ignored: two worlds that answer the SDK queries alike
    and can both list the directory give the same trace and the same single
    job, whatever the directory holds and whether or not the module is
    deny-listed. *)
Theorem explicit_module_ignores_listing (w1 w2 : world)
  (cmd_common cmd_extra_args : list string) (sdk m : string)
  (target : option string) (source_file output_dir : string) (quiet : bool)
  (l1 l2 : list string) :
  m ≠ "" →
  spawn w1 (sdk_path_query sdk) = spawn w2 (sdk_path_query sdk) →
  spawn w1 (sdk_version_query sdk) = spawn w2 (sdk_version_query sdk) →
  entries w1 (frameworks_dir_of (rstrip (spawn w1 (sdk_path_query sdk)).1.2))
  = Some l1 →
  entries w2 (frameworks_dir_of (rstrip (spawn w1 (sdk_path_query sdk)).1.2))
  = Some l2 →
  create_dump_module_api_args w1 cmd_common cmd_extra_args sdk (Some m)
    target source_file output_dir quiet
  = create_dump_module_api_args w2 cmd_common cmd_extra_args sdk (Some m)
      target source_file output_dir quiet.
Proof.
  intros Hm Hq1 Hq2 H1 H2.
  assert (truthy (Some m) = true) as Htruthy by by destruct m.
  apply injective_projections.
  - rewrite !create_events, !collect_frameworks_cases. cbv zeta.
    rewrite <- Hq1, <- Hq2, H1, H2.
    by repeat destruct (negb _).
  - rewrite !create_outcome, !collect_frameworks_cases. cbv zeta.
    rewrite <- Hq1, <- Hq2, H1, H2.
    repeat destruct (negb _); cbn [snd]; try done.
    by rewrite Htruthy.
Qed.

Lemma explicit_module_ignores_listing_witness :
  create_dump_module_api_args sample_world ["swift-ide-test"] [] "macosx"
    (Some "System") None "omit-needless-words.swift" "out" false
  = create_dump_module_api_args bare_world ["swift-ide-test"] []
      "macosx" (Some "System") None "omit-needless-words.swift" "out" false.
Proof.
  apply (explicit_module_ignores_listing sample_world bare_world
           ["swift-ide-test"] [] "macosx" "System" None
           "omit-needless-words.swift" "out" false
           ["System.framework"; "Foo.framework"; "README"] []);
    [discriminate|reflexivity..].
Defined.
